(** * Voice subsystem of the PAI server: sanitizer, providers, manager

    A shallow embedding of [pai-server/src/voice] (the text sanitizer of
    [BaseVoiceProvider], the four voice providers and [VoiceManager])
    together with the properties the design document states about them.

    Conventions of the embedding:
    - a JavaScript string is the list of its UTF-16 code units ([N]);
    - a JavaScript [number] is a rational ([Q]): finite values with exact
      arithmetic (NaN, the infinities and binary rounding are outside the
      model);
    - an [async] function is the function from what the host answers to the
      settled state of its promise ([Resolve] or [Reject]);
    - [options?: VoiceOptions] and optional fields are [option]s. *)

From Stdlib Require Import List Bool Arith NArith ZArith QArith Qround Qminmax.
From Stdlib Require Import Ascii String DecimalString Lia Lqa.
Import ListNotations.

(* ================================================================== *)
(** * Part I. The model *)
(* ================================================================== *)

(** ** JavaScript strings *)

Module JS.

Definition char := N.
Definition jsstring := list char.

(** A literal of the source, code unit by code unit (ASCII literals). *)
Definition str (s : string) : jsstring :=
  List.map N_of_ascii (list_ascii_of_string s).

Definition ch (a : ascii) : char := N_of_ascii a.

Arguments str s%_string.
Arguments ch a%_char.

Definition char_eqb (a b : char) : bool := N.eqb a b.

Fixpoint eqb (a b : jsstring) : bool :=
  match a, b with
  | [], [] => true
  | x :: a', y :: b' => char_eqb x y && eqb a' b'
  | _, _ => false
  end.

(** Truthiness of a string: the empty string is falsy. *)
Definition truthy_string (s : jsstring) : bool :=
  match s with [] => false | _ :: _ => true end.

(** Truthiness of a (finite) number: zero is falsy. *)
Definition truthy_number (q : Q) : bool := negb (Qeq_bool q 0).

(** WhiteSpace and LineTerminator code units: the class [\s] of regular
    expressions and the characters removed by [String.prototype.trim]. *)
Definition is_space (c : char) : bool :=
  ((9 <=? c) && (c <=? 13)             (* TAB LF VT FF CR *)
   || (c =? 32)                        (* SPACE *)
   || (c =? 160)                       (* NBSP *)
   || (c =? 5760)                      (* U+1680 *)
   || ((8192 <=? c) && (c <=? 8202))   (* U+2000 .. U+200A *)
   || (c =? 8232) || (c =? 8233)       (* LS, PS *)
   || (c =? 8239) || (c =? 8287)       (* U+202F, U+205F *)
   || (c =? 12288)                     (* U+3000 *)
   || (c =? 65279))%N.                 (* U+FEFF *)

Fixpoint trimStart (s : jsstring) : jsstring :=
  match s with
  | c :: r => if is_space c then trimStart r else s
  | [] => []
  end.

Definition trimEnd (s : jsstring) : jsstring := rev (trimStart (rev s)).

Definition trim (s : jsstring) : jsstring := trimEnd (trimStart s).

(** Decimal rendering of an integer, as [String(n)] gives for an integer
    valued number. *)
Definition of_Z (z : Z) : jsstring := str (NilZero.string_of_int (Z.to_int z)).

(** [Math.round]: the nearest integer, ties towards plus infinity. *)
Definition Math_round (q : Q) : Z := Qfloor (q + (1 # 2)).

(** *** Regular expressions

    A compiled pattern is its backtracking matcher at one start position:
    it answers the text of capture group 1 and the input left after the
    match.  Patterns are built in continuation-passing style, so that a
    greedy quantifier can give characters back when what follows fails. *)

Definition regex := jsstring -> option (jsstring * jsstring).

Section Combinators.
Context {A : Type}.

(** One character of the class [p], then [k]. *)
Definition one (p : char -> bool) (k : char -> jsstring -> option A)
  (s : jsstring) : option A :=
  match s with
  | c :: r => if p c then k c r else None
  | [] => None
  end.

(** [p*], greedy: as many as possible first, fewer on failure of [k].
    [k] receives the characters consumed. *)
Fixpoint many_from (p : char -> bool) (k : jsstring -> jsstring -> option A)
  (acc s : jsstring) : option A :=
  match s with
  | c :: r =>
      if p c then
        match many_from p k (acc ++ [c]) r with
        | Some x => Some x
        | None => k acc s
        end
      else k acc s
  | [] => k acc []
  end.

Definition many p k := many_from p k [].

(** [p{0,n}], greedy. *)
Fixpoint upto_from (n : nat) (p : char -> bool)
  (k : jsstring -> jsstring -> option A) (acc s : jsstring) : option A :=
  match n, s with
  | S n', c :: r =>
      if p c then
        match upto_from n' p k (acc ++ [c]) r with
        | Some x => Some x
        | None => k acc s
        end
      else k acc s
  | _, _ => k acc s
  end.

Definition upto n p k := upto_from n p k [].
End Combinators.

(** End of a pattern without a capture group. *)
Definition accept (rest : jsstring) : option (jsstring * jsstring) :=
  Some ([], rest).

(** [text.replace(re, repl)] for a pattern [re] with the [g] flag whose
    matches are never empty: scan from the left; at a match emit the
    replacement (a function of group 1) and resume after the match,
    otherwise copy one character and resume at the next position.
    [skip] counts the characters of the current match still to pass. *)
Fixpoint replace_from (re : regex) (repl : jsstring -> jsstring)
  (skip : nat) (s : jsstring) : jsstring :=
  match s with
  | [] => []
  | c :: r =>
      match skip with
      | S k => replace_from re repl k r
      | O =>
          match re s with
          | Some (g1, rest) =>
              repl g1 ++ replace_from re repl (List.length r - List.length rest) r
          | None => c :: replace_from re repl 0 r
          end
      end
  end.

Definition replace (re : regex) (repl : jsstring -> jsstring)
  (s : jsstring) : jsstring :=
  replace_from re repl 0 s.

(** Replacement patterns: a literal, and [$1]. *)
Definition lit (t : jsstring) : jsstring -> jsstring := fun _ => t.
Definition group1 : jsstring -> jsstring := fun g => g.

End JS.

Import JS.

(** ** The sanitizer ([BaseVoiceProvider.sanitizeText]) *)

Module Sanitizer.

Definition is_angle (c : char) : bool := char_eqb c (ch "<") || char_eqb c (ch ">").
Definition is_star (c : char) : bool := char_eqb c (ch "*").
Definition is_tick (c : char) : bool := char_eqb c (ch "`").
Definition is_hash (c : char) : bool := char_eqb c (ch "#").
Definition is_lbracket (c : char) : bool := char_eqb c (ch "[").
Definition is_rbracket (c : char) : bool := char_eqb c (ch "]").
Definition is_lparen (c : char) : bool := char_eqb c (ch "(").
Definition is_rparen (c : char) : bool := char_eqb c (ch ")").
Definition not_rbracket (c : char) : bool := negb (is_rbracket c).
Definition not_rparen (c : char) : bool := negb (is_rparen c).

(** [/[<>]/g] *)
Definition re_angle : regex := one is_angle (fun _ => accept).

(** [/\*\*/g] *)
Definition re_bold : regex := one is_star (fun _ => one is_star (fun _ => accept)).

(** [/\*/g] *)
Definition re_star : regex := one is_star (fun _ => accept).

(** [/`/g] *)
Definition re_tick : regex := one is_tick (fun _ => accept).

(** [/#{1,6}\s/g]: one [#], up to five more, one white space. *)
Definition re_header : regex :=
  one is_hash (fun _ =>
    upto 5 is_hash (fun _ =>
      one is_space (fun _ => accept))).

(** [/\[([^\]]+)\]\([^)]+\)/g]; group 1 is the label. *)
Definition re_link : regex :=
  one is_lbracket (fun _ =>
    one not_rbracket (fun c =>
      many not_rbracket (fun cs =>
        one is_rbracket (fun _ =>
          one is_lparen (fun _ =>
            one not_rparen (fun _ =>
              many not_rparen (fun _ =>
                one is_rparen (fun _ rest => Some (c :: cs, rest))))))))).

Definition sanitizeText (text : jsstring) : jsstring :=
  trim
    (replace re_link group1
      (replace re_header (lit [])
        (replace re_tick (lit [])
          (replace re_star (lit [])
            (replace re_bold (lit [])
              (replace re_angle (lit []) text)))))).

End Sanitizer.

Import Sanitizer.

(** ** What the program observes of its host *)

Module Host.

(** The message of a thrown [Error]. *)
Definition error := jsstring.

(** Settled state of the promise of an [async] function.  [Crash] is an
    exception that escapes an event listener: the promise never settles. *)
Inductive promise (A : Type) : Type :=
| Resolve (a : A)
| Reject (e : error)
| Crash (e : error).

Arguments Resolve {A} a.
Arguments Reject {A} e.
Arguments Crash {A} e.

Definition bind {A B} (m : promise A) (k : A -> promise B) : promise B :=
  match m with
  | Resolve a => k a
  | Reject e => Reject e
  | Crash e => Crash e
  end.

(** An argument handed to [spawn]: a string, or a number rendered by
    [toString()] or by [toFixed(digits)]. *)
Inductive arg : Type :=
| Str (s : jsstring)
| NumToString (q : Q)
| NumToFixed (digits : nat) (q : Q).

Record spawn_call : Type := { command : jsstring; args : list arg }.

(** How a spawned process ends: the [error] event, or the [exit] event
    with its code ([null] when a signal ended it) and what it wrote. *)
Inductive proc_outcome : Type :=
| ProcError (e : error)
| ProcExit (code : option Z) (stdout stderr : jsstring).

(** The argument of [JSON.stringify]. *)
#[warnings="-register-all"]
Inductive json : Type :=
| JStr (s : jsstring)
| JNum (q : Q)
| JObj (fields : list (jsstring * json)).

Record http_request : Type := {
  url : jsstring;
  method : option jsstring;
  headers : list (jsstring * jsstring);
  body : option json            (* serialised by [JSON.stringify] *)
}.

(** A response: [ok], [status], [text()], and for the voice catalogue the
    [voice_id] and [name] of the entries of [data.voices] ([None] when
    [json()] or the traversal of [data.voices] throws). *)
Record response : Type := {
  ok : bool;
  status : Z;
  text : jsstring;
  voices : option (list (jsstring * jsstring))
}.

Inductive fetch_outcome : Type :=
| FetchThrows (e : error)
| FetchResponse (r : response).

Record host : Type := {
  platform : jsstring;                        (* process.platform *)
  run : spawn_call -> proc_outcome;           (* child_process.spawn *)
  fetch : http_request -> fetch_outcome;
  now : Z;                                    (* Date.now() *)
  toLowerCase : jsstring -> jsstring          (* String.prototype.toLowerCase *)
}.

(** [code === 0] *)
Definition exit_ok (code : option Z) : bool :=
  match code with Some 0%Z => true | _ => false end.

(** [`${code}`] *)
Definition show_code (code : option Z) : jsstring :=
  match code with Some z => of_Z z | None => str "null" end.

(** The presence check shared by the providers: spawn the command and
    succeed on exit code 0; any other end is caught and gives [false]. *)
Definition probe (h : host) (c : spawn_call) : bool :=
  match run h c with
  | ProcExit code _ _ => exit_ok code
  | ProcError _ => false
  end.

End Host.

Import Host.

Notation "x <- m ;; k" := (bind m (fun x => k))
  (at level 61, m at next level, right associativity).

(** ** Types of [types/index.ts] *)

Record VoiceOptions : Type := {
  voice : option jsstring;
  rate : option Q;
  pitch : option Q;
  volume : option Q
}.

Inductive Quality : Type := enhanced | premium | standard.

Record VoiceInfo : Type := {
  id : jsstring;
  vname : jsstring;
  language : jsstring;
  gender : option jsstring;
  quality : option Quality
}.

(** [options?.voice], [options?.rate], [options?.pitch] *)
Definition opt_voice (o : option VoiceOptions) : option jsstring :=
  match o with Some r => voice r | None => None end.
Definition opt_rate (o : option VoiceOptions) : option Q :=
  match o with Some r => rate r | None => None end.
Definition opt_pitch (o : option VoiceOptions) : option Q :=
  match o with Some r => pitch r | None => None end.

(** A condition on an optional string or number: absent is falsy. *)
Definition if_string (o : option jsstring) : option jsstring :=
  match o with
  | Some v => if truthy_string v then Some v else None
  | None => None
  end.
Definition if_number (o : option Q) : option Q :=
  match o with
  | Some q => if truthy_number q then Some q else None
  | None => None
  end.

(** ** The providers *)

Inductive provider_class : Type := MacOS | Windows | Android | ElevenLabs.

(** A provider object: its class, the fields [name] and [available], and
    for the cloud provider the [apiKey] given to the constructor. *)
Record VoiceProvider : Type := {
  class : provider_class;
  name : jsstring;
  available : bool;
  apiKey : option jsstring
}.

Definition set_available (p : VoiceProvider) (b : bool) : VoiceProvider :=
  {| class := class p; name := name p; available := b; apiKey := apiKey p |}.

Definition dq : jsstring := [34%N].
Definition nl : jsstring := [10%N].

Module MacOSVoiceProvider.

Definition new : VoiceProvider :=
  {| class := MacOS; name := str "macOS"; available := false; apiKey := None |}.

Definition isAvailable (h : host) : bool :=
  if negb (JS.eqb (platform h) (str "darwin")) then false
  else probe h {| command := str "which"; args := [Str (str "say")] |}.

(** [speak] up to the call of [spawn]. *)
Definition speak_call (this : VoiceProvider) (text : jsstring)
  (options : option VoiceOptions) : promise spawn_call :=
  if negb (available this) then Reject (str "macOS voice provider not available")
  else
    let sanitized := sanitizeText text in
    let args := [] in
    let args :=
      match if_string (opt_voice options) with
      | Some v => args ++ [Str (str "-v"); Str v]
      | None => args
      end in
    let args :=
      match if_number (opt_rate options) with
      | Some r => args ++ [Str (str "-r"); NumToString r]
      | None => args
      end in
    let args := args ++ [Str sanitized] in
    Resolve {| command := str "say"; args := args |}.

Definition speak_exit (o : proc_outcome) : promise unit :=
  match o with
  | ProcError e => Reject e
  | ProcExit code _ _ =>
      if exit_ok code then Resolve tt
      else Reject (str "say command exited with code " ++ show_code code)
  end.

Definition speak (h : host) (this : VoiceProvider) (text : jsstring)
  (options : option VoiceOptions) : promise unit :=
  c <- speak_call this text options ;;
  speak_exit (run h c).

Definition voice_entry (i n l : string) (g : string) (q : Quality) : VoiceInfo :=
  {| id := str i; vname := str n; language := str l;
     gender := Some (str g); quality := Some q |}.

Definition getVoices (this : VoiceProvider) : promise (list VoiceInfo) :=
  if negb (available this) then Resolve []
  else Resolve [
    voice_entry "Jamie" "Jamie (Premium)" "en-GB" "male" premium;
    voice_entry "Ava" "Ava (Premium)" "en-US" "female" premium;
    voice_entry "Tom" "Tom (Enhanced)" "en-US" "male" enhanced;
    voice_entry "Serena" "Serena (Premium)" "en-GB" "female" premium;
    voice_entry "Isha" "Isha (Premium)" "en-IN" "female" premium;
    voice_entry "Oliver" "Oliver (Enhanced)" "en-GB" "male" enhanced;
    voice_entry "Samantha" "Samantha (Enhanced)" "en-US" "female" enhanced ].

End MacOSVoiceProvider.

Module WindowsVoiceProvider.

Definition new : VoiceProvider :=
  {| class := Windows; name := str "Windows"; available := false; apiKey := None |}.

Definition powershell (script : jsstring) : spawn_call :=
  {| command := str "powershell"; args := [Str (str "-Command"); Str script] |}.

Definition isAvailable (h : host) : bool :=
  if negb (JS.eqb (platform h) (str "win32")) then false
  else probe h (powershell (str "Get-Command Add-Type")).

(** Convert WPM rate to SAPI rate (-10 to 10). *)
Definition normalizeRate (wpm : Q) : Z :=
  let normalized := ((wpm - 180) / 20)%Q in
  Z.max (-10) (Z.min 10 (Math_round normalized)).

(** The pattern of one double quote, with the [g] flag. *)
Definition re_dquote : regex := one (fun c => char_eqb c 34%N) (fun _ => accept).

(** One line of a template literal of the source: six spaces of
    indentation, the text, a line feed. *)
Definition line (t : jsstring) : jsstring := str "      " ++ t ++ nl.

(** The two interpolated statements of the script: each is the empty
    string when its option is absent or falsy. *)
Definition voice_statement (options : option VoiceOptions) : jsstring :=
  match if_string (opt_voice options) with
  | Some v => str "$synth.SelectVoice(" ++ dq ++ v ++ dq ++ str ")"
  | None => []
  end.

Definition rate_statement (options : option VoiceOptions) : jsstring :=
  match if_number (opt_rate options) with
  | Some r => str "$synth.Rate = " ++ of_Z (normalizeRate r)
  | None => []
  end.

Definition speak_script (options : option VoiceOptions) (escapedText : jsstring)
  : jsstring :=
  nl
  ++ line (str "Add-Type -AssemblyName System.Speech")
  ++ line (str "$synth = New-Object System.Speech.Synthesis.SpeechSynthesizer")
  ++ line (voice_statement options)
  ++ line (rate_statement options)
  ++ line (str "$synth.Speak(" ++ dq ++ escapedText ++ dq ++ str ")")
  ++ line (str "$synth.Dispose()")
  ++ str "    ".

(** [speak] up to the call of [spawn]. *)
Definition speak_call (this : VoiceProvider) (text : jsstring)
  (options : option VoiceOptions) : promise spawn_call :=
  if negb (available this) then Reject (str "Windows voice provider not available")
  else
    let sanitized := sanitizeText text in
    let escapedText := replace re_dquote (lit (dq ++ dq)) sanitized in
    Resolve (powershell (speak_script options escapedText)).

Definition exit_error (code : option Z) (stderr : jsstring) : error :=
  str "PowerShell exited with code " ++ show_code code ++ str ": " ++ stderr.

Definition speak_exit (o : proc_outcome) : promise unit :=
  match o with
  | ProcError e => Reject e
  | ProcExit code _ stderr =>
      if exit_ok code then Resolve tt else Reject (exit_error code stderr)
  end.

Definition speak (h : host) (this : VoiceProvider) (text : jsstring)
  (options : option VoiceOptions) : promise unit :=
  c <- speak_call this text options ;;
  speak_exit (run h c).

Definition voices_script : jsstring :=
  nl
  ++ line (str "Add-Type -AssemblyName System.Speech")
  ++ line (str "$synth = New-Object System.Speech.Synthesis.SpeechSynthesizer")
  ++ line (str "$synth.GetInstalledVoices() | ForEach-Object {")
  ++ line (str "  $voice = $_.VoiceInfo")
  ++ line (str "  Write-Output " ++ dq
           ++ str "$($voice.Name)|$($voice.Culture.Name)|$($voice.Gender)" ++ dq)
  ++ line (str "}")
  ++ line (str "$synth.Dispose()")
  ++ str "    ".

(** [s.split(sep)] for a separator of one character. *)
Fixpoint split (sep : char) (s : jsstring) : list jsstring :=
  match s with
  | [] => [[]]
  | c :: r =>
      if char_eqb c sep then [] :: split sep r
      else match split sep r with
           | x :: xs => (c :: x) :: xs
           | [] => [[c]]
           end
  end.

Definition bar : char := ch "|".

(** [line.includes('|')] *)
Definition includes_bar (l : jsstring) : bool := existsb (fun c => char_eqb c bar) l.

(** The callback of [map]: [gender] is the third field of the line, and
    [gender.toLowerCase()] throws a [TypeError] when there is none. *)
Definition parse_voice (h : host) (l : jsstring) : promise VoiceInfo :=
  let parts := split bar l in
  let name := nth 0 parts [] in
  let language := nth 1 parts [] in
  match nth_error parts 2 with
  | Some gender =>
      Resolve {| id := name; vname := name; language := language;
                 gender := Some (toLowerCase h gender);
                 quality := Some standard |}
  | None => Crash (str "TypeError")
  end.

Fixpoint map_voices (h : host) (ls : list jsstring) : promise (list VoiceInfo) :=
  match ls with
  | [] => Resolve []
  | l :: r =>
      v <- parse_voice h l ;;
      vs <- map_voices h r ;;
      Resolve (v :: vs)
  end.

Definition getVoices (h : host) (this : VoiceProvider) : promise (list VoiceInfo) :=
  if negb (available this) then Resolve []
  else
    match run h (powershell voices_script) with
    | ProcError e => Reject e
    | ProcExit code stdout stderr =>
        if negb (exit_ok code) then Reject (exit_error code stderr)
        else map_voices h (filter includes_bar (split (ch "010") (trim stdout)))
    end.

End WindowsVoiceProvider.

Module AndroidVoiceProvider.

Definition new : VoiceProvider :=
  {| class := Android; name := str "Android"; available := false; apiKey := None |}.

Definition isAvailable (h : host) : bool :=
  probe h {| command := str "which"; args := [Str (str "termux-tts-speak")] |}.

(** [Math.max(0.1, Math.min(2.0, x))] *)
Definition clamp_tts (x : Q) : Q := Qmax (1 # 10) (Qmin 2 x).

(** [speak] up to the call of [spawn]. *)
Definition speak_call (this : VoiceProvider) (text : jsstring)
  (options : option VoiceOptions) : promise spawn_call :=
  if negb (available this) then Reject (str "Android voice provider not available")
  else
    let sanitized := sanitizeText text in
    let args := [] in
    let args :=
      match if_number (opt_rate options) with
      | Some r =>
          let rate := (r / 175)%Q in
          args ++ [Str (str "-r"); NumToFixed 2 (clamp_tts rate)]
      | None => args
      end in
    let args :=
      match if_number (opt_pitch options) with
      | Some p => args ++ [Str (str "-p"); NumToFixed 2 (clamp_tts p)]
      | None => args
      end in
    let args := args ++ [Str sanitized] in
    Resolve {| command := str "termux-tts-speak"; args := args |}.

Definition speak_exit (o : proc_outcome) : promise unit :=
  match o with
  | ProcError e => Reject e
  | ProcExit code _ _ =>
      if exit_ok code then Resolve tt
      else Reject (str "termux-tts-speak exited with code " ++ show_code code)
  end.

Definition speak (h : host) (this : VoiceProvider) (text : jsstring)
  (options : option VoiceOptions) : promise unit :=
  c <- speak_call this text options ;;
  speak_exit (run h c).

Definition getVoices (this : VoiceProvider) : promise (list VoiceInfo) :=
  if negb (available this) then Resolve []
  else Resolve [ {| id := str "default"; vname := str "Android TTS";
                    language := str "en-US"; gender := None;
                    quality := Some standard |} ].

End AndroidVoiceProvider.

Module ElevenLabsVoiceProvider.

Definition new (apiKey : option jsstring) : VoiceProvider :=
  {| class := ElevenLabs; name := str "ElevenLabs"; available := false;
     apiKey := apiKey |}.

(** Kai's voice *)
Definition defaultVoiceId : jsstring := str "s3TPKV1kjDlVtZbl4Ksh".

(** [!!this.apiKey] *)
Definition isAvailable (this : VoiceProvider) : bool :=
  match if_string (apiKey this) with Some _ => true | None => false end.

(** [speak] up to the call of [fetch]. *)
Definition speak_request (this : VoiceProvider) (text : jsstring)
  (options : option VoiceOptions) : promise http_request :=
  match available this, if_string (apiKey this) with
  | true, Some key =>
      let sanitized := sanitizeText text in
      let voiceId :=
        match if_string (opt_voice options) with
        | Some v => v
        | None => defaultVoiceId
        end in
      let url := str "https://api.elevenlabs.io/v1/text-to-speech/" ++ voiceId in
      Resolve {|
        url := url;
        method := Some (str "POST");
        headers := [ (str "Accept", str "audio/mpeg");
                     (str "Content-Type", str "application/json");
                     (str "xi-api-key", key) ];
        body := Some (JObj [
          (str "text", JStr sanitized);
          (str "model_id", JStr (str "eleven_monolingual_v1"));
          (str "voice_settings", JObj [
             (str "stability", JNum (5 # 10));
             (str "similarity_boost", JNum (5 # 10)) ]) ])
      |}
  | _, _ => Reject (str "ElevenLabs API key not configured")
  end.

Definition players : list jsstring :=
  [ str "afplay"; str "mpg123"; str "ffplay"; str "powershell" ].

(** This module imports [BaseVoiceProvider] and the types only: [spawn]
    is not defined in it, and calling it throws a ReferenceError. *)
Definition spawn_undefined : error := str "spawn is not defined".

(** The body of the [try] in [detectAudioPlayer]: the call of [spawn]
    throws before any process is started. *)
Definition probe_player (h : host) (player : jsstring) : promise bool :=
  Reject spawn_undefined.

(** The loop over the players: a probe that throws is caught and the loop
    goes on; [null] when no probe succeeded. *)
Definition detectAudioPlayer (h : host) : option jsstring :=
  find (fun player =>
          match probe_player h player with
          | Resolve true => true
          | _ => false
          end)
       players.

(** The audio is written to [tempFile]; without a player the function
    throws, and with one the call of [spawn] in the promise executor
    throws. *)
Definition playAudio (h : host) : promise unit :=
  let tempFile := str "/tmp/voice-" ++ of_Z (now h) ++ str ".mp3" in
  match detectAudioPlayer h with
  | None => Reject (str "No audio player found")
  | Some player => Reject spawn_undefined
  end.

Definition speak (h : host) (this : VoiceProvider) (text : jsstring)
  (options : option VoiceOptions) : promise unit :=
  req <- speak_request this text options ;;
  match fetch h req with
  | FetchThrows e => Reject e
  | FetchResponse r =>
      if negb (ok r) then
        Reject (str "ElevenLabs API error: " ++ of_Z (status r)
                ++ str " - " ++ Host.text r)
      else playAudio h
  end.

Definition voices_request (key : jsstring) : http_request :=
  {| url := str "https://api.elevenlabs.io/v1/voices";
     method := None;
     headers := [ (str "xi-api-key", key) ];
     body := None |}.

Definition getVoices (h : host) (this : VoiceProvider) : promise (list VoiceInfo) :=
  match available this, if_string (apiKey this) with
  | true, Some key =>
      match fetch h (voices_request key) with
      | FetchThrows _ => Resolve []
      | FetchResponse r =>
          if negb (ok r) then Resolve []
          else
            match voices r with
            | None => Resolve []
            | Some vs =>
                Resolve (List.map (fun v =>
                  {| id := fst v; vname := snd v; language := str "en-US";
                     gender := None; quality := Some premium |}) vs)
            end
      end
  | _, _ => Resolve []
  end.

End ElevenLabsVoiceProvider.

(** Method dispatch on the class of the provider object. *)
Definition provider_isAvailable (h : host) (this : VoiceProvider) : bool :=
  match class this with
  | MacOS => MacOSVoiceProvider.isAvailable h
  | Windows => WindowsVoiceProvider.isAvailable h
  | Android => AndroidVoiceProvider.isAvailable h
  | ElevenLabs => ElevenLabsVoiceProvider.isAvailable this
  end.

Definition provider_speak (h : host) (this : VoiceProvider) (text : jsstring)
  (options : option VoiceOptions) : promise unit :=
  match class this with
  | MacOS => MacOSVoiceProvider.speak h this text options
  | Windows => WindowsVoiceProvider.speak h this text options
  | Android => AndroidVoiceProvider.speak h this text options
  | ElevenLabs => ElevenLabsVoiceProvider.speak h this text options
  end.

Definition provider_getVoices (h : host) (this : VoiceProvider)
  : promise (list VoiceInfo) :=
  match class this with
  | MacOS => MacOSVoiceProvider.getVoices this
  | Windows => WindowsVoiceProvider.getVoices h this
  | Android => AndroidVoiceProvider.getVoices this
  | ElevenLabs => ElevenLabsVoiceProvider.getVoices h this
  end.

(** What a provider hands to its backend when [speak] gets that far. *)
Inductive dispatch : Type :=
| Spawn (c : spawn_call)
| Fetch (r : http_request).

Definition provider_dispatch (this : VoiceProvider) (text : jsstring)
  (options : option VoiceOptions) : promise dispatch :=
  match class this with
  | MacOS => c <- MacOSVoiceProvider.speak_call this text options ;; Resolve (Spawn c)
  | Windows => c <- WindowsVoiceProvider.speak_call this text options ;; Resolve (Spawn c)
  | Android => c <- AndroidVoiceProvider.speak_call this text options ;; Resolve (Spawn c)
  | ElevenLabs => r <- ElevenLabsVoiceProvider.speak_request this text options ;; Resolve (Fetch r)
  end.

(** ** The manager ([VoiceManager]) *)

(** How [await provider.initialize()] ends: with the [available] flag it
    stored, or by throwing. *)
Inductive detection : Type :=
| Detected (b : bool)
| DetectionThrows (e : error).

(** The four [initialize] methods of the source: each stores the answer
    of its own [isAvailable], which catches every failure of its check. *)
Definition host_detect (h : host) (p : VoiceProvider) : detection :=
  Detected (provider_isAvailable h p).

Module VoiceManager.

Record t : Type := {
  providers : list VoiceProvider;
  activeProvider : option VoiceProvider;
  initialized : bool;
  elevenLabsApiKey : option jsstring
}.

Definition new (elevenLabsApiKey : option jsstring) : t :=
  {| providers := []; activeProvider := None; initialized := false;
     elevenLabsApiKey := elevenLabsApiKey |}.

(** Create all providers. *)
Definition created (this : t) : list VoiceProvider :=
  [ MacOSVoiceProvider.new;
    WindowsVoiceProvider.new;
    AndroidVoiceProvider.new;
    ElevenLabsVoiceProvider.new (elevenLabsApiKey this) ].

Section Initialize.
Variable detect : VoiceProvider -> detection.

(** Initialize each provider: the loop over [created], pushing the
    available ones on [this.providers]. *)
Fixpoint init_each (todo : list VoiceProvider) (pushed : list VoiceProvider)
  : list VoiceProvider :=
  match todo with
  | [] => pushed
  | provider :: rest =>
      match detect provider with
      | Detected true => init_each rest (pushed ++ [set_available provider true])
      | Detected false => init_each rest pushed
      | DetectionThrows _ => init_each rest pushed
      end
  end.

(** Set active provider (prefer native over cloud). *)
Definition choose (ps : list VoiceProvider) : option VoiceProvider :=
  match find (fun p => negb (JS.eqb (name p) (str "ElevenLabs"))) ps with
  | Some p => Some p
  | None => match ps with p :: _ => Some p | [] => None end
  end.

Definition initialize (this : t) : t :=
  if initialized this then this
  else
    let ps := init_each (created this) (providers this) in
    {| providers := ps;
       activeProvider := choose ps;
       initialized := true;
       elevenLabsApiKey := elevenLabsApiKey this |}.

Definition ensure_initialized (this : t) : t :=
  if negb (initialized this) then initialize this else this.

Definition speak (h : host) (this : t) (text : jsstring)
  (options : option VoiceOptions) : t * promise unit :=
  let this := ensure_initialized this in
  match activeProvider this with
  | None => (this, Reject (str "No voice provider available"))
  | Some p => (this, provider_speak h p text options)
  end.

Definition getVoices (h : host) (this : t) : t * promise (list VoiceInfo) :=
  let this := ensure_initialized this in
  match activeProvider this with
  | None => (this, Resolve [])
  | Some p => (this, provider_getVoices h p)
  end.
End Initialize.

Definition getProviders (this : t) : list VoiceProvider := providers this.

Definition getActiveProvider (this : t) : option jsstring :=
  match activeProvider this with
  | Some p => if_string (Some (name p))
  | None => None
  end.

Definition isAvailable (this : t) : bool :=
  match activeProvider this with Some _ => true | None => false end.

Definition setProvider (h : host) (this : t) (providerName : jsstring)
  : t * promise unit :=
  match find (fun p => JS.eqb (toLowerCase h (name p)) (toLowerCase h providerName))
             (providers this) with
  | None =>
      (this, Reject (str "Provider " ++ dq ++ providerName ++ dq
                     ++ str " not available"))
  | Some provider =>
      ({| providers := providers this;
          activeProvider := Some provider;
          initialized := initialized this;
          elevenLabsApiKey := elevenLabsApiKey this |}, Resolve tt)
  end.

(** The object [initialize] constructs for a class. *)
Definition object (this : t) (k : provider_class) : VoiceProvider :=
  match k with
  | MacOS => MacOSVoiceProvider.new
  | Windows => WindowsVoiceProvider.new
  | Android => AndroidVoiceProvider.new
  | ElevenLabs => ElevenLabsVoiceProvider.new (elevenLabsApiKey this)
  end.

End VoiceManager.

(** The availability a detection leaves in the provider: a detection that
    throws leaves the initial [false]. *)
Definition reports (d : detection) : bool :=
  match d with
  | Detected b => b
  | DetectionThrows _ => false
  end.

(** ** The design document's formulations, for comparison with the code *)

Module Design.

(** [clamp(x, lo, hi)] *)
Definition clamp (x lo hi : Z) : Z :=
  if (x <? lo)%Z then lo else if (hi <? x)%Z then hi else x.

(** [clamp(round((wpm-180)/20), -10, 10)] *)
Definition rate_formula (wpm : Q) : Z :=
  clamp (Math_round ((wpm - 180) / 20)) (-10) 10.

Definition natives : list provider_class := [MacOS; Windows; Android].

(** Prefer any native provider over the cloud fallback; among natives the
    first available in construction order; else the cloud provider if it
    is available; else unset. *)
Definition policy (avail : provider_class -> bool) : option provider_class :=
  match find avail natives with
  | Some k => Some k
  | None => if avail ElevenLabs then Some ElevenLabs else None
  end.

End Design.

(** ** Sample inputs *)

Module Sample.

(** A detection that finds nothing. *)
Definition nothing_detected : VoiceProvider -> detection := fun _ => Detected false.

(** A host on which every spawned process exits with code 1 and every
    request fails. *)
Definition quiet_host : host :=
  {| platform := str "linux";
     run := fun _ => ProcExit (Some 1%Z) [] [];
     fetch := fun _ => FetchThrows (str "fetch failed");
     now := 0%Z;
     toLowerCase := fun s => s |}.

(** A Windows host: every process exits with code 0 and prints two
    voice lines and a line without separator. *)
Definition windows_host : host :=
  {| platform := str "win32";
     run := fun _ =>
       ProcExit (Some 0%Z)
         (str "Microsoft David|en-US|Male" ++ nl
          ++ str "Microsoft Zira|en-US|Female" ++ nl
          ++ str "junk" ++ nl) [];
     fetch := fun _ => FetchThrows (str "fetch failed");
     now := 0%Z;
     toLowerCase := fun s => s |}.

(** Lower-casing of the ASCII letters, and the Windows host with it. *)
Definition ascii_toLowerCase (s : jsstring) : jsstring :=
  List.map (fun c => if ((65 <=? c) && (c <=? 90))%N then (c + 32)%N else c) s.

Definition lowercasing_host : host :=
  {| platform := platform windows_host;
     run := run windows_host;
     fetch := fetch windows_host;
     now := now windows_host;
     toLowerCase := ascii_toLowerCase |}.

(** The provider objects after a detection that found them. *)
Definition macos : VoiceProvider := set_available MacOSVoiceProvider.new true.
Definition windows : VoiceProvider := set_available WindowsVoiceProvider.new true.
Definition android : VoiceProvider := set_available AndroidVoiceProvider.new true.
Definition elevenlabs : VoiceProvider :=
  set_available (ElevenLabsVoiceProvider.new (Some (str "sk-test"))) true.

Definition with_rate (r : Q) : option VoiceOptions :=
  Some {| voice := None; rate := Some r; pitch := None; volume := None |}.

Definition with_rate_pitch (r p : Q) : option VoiceOptions :=
  Some {| voice := None; rate := Some r; pitch := Some p; volume := None |}.

End Sample.

Import Sample.

(** ** Vocabulary of the properties *)

(** A text without characters of the class [p]. *)
Definition free (p : char -> bool) (s : jsstring) : Prop :=
  Forall (fun c => p c = false) s.

(** A text that is empty or starts with a character that is not white
    space. *)
Definition headed (s : jsstring) : Prop :=
  match s with
  | [] => True
  | c :: _ => is_space c = false
  end.

(** The characters the sanitizer acts on: a text without them comes back
    trimmed and otherwise unchanged. *)
Definition is_markup (c : char) : bool :=
  is_angle c || is_star c || is_tick c || is_hash c || is_lbracket c.

(** An argument of the Android call that is a string or a number in
    0.1..2.0 rendered by [toFixed]. *)
Definition within_tts_range (a : arg) : Prop :=
  match a with
  | Str _ => True
  | NumToString _ => False
  | NumToFixed _ q => (1 # 10 <= q)%Q /\ (q <= 2)%Q
  end.

(** The dispatch [d] of a provider of class [k] carries the text [t]: as
    the last process argument (macOS, Android), as the quoted argument of
    [Speak] in the generated script (Windows), or as the [text] field of
    the request body (ElevenLabs). *)
Definition carries (k : provider_class) (options : option VoiceOptions)
  (d : dispatch) (t : jsstring) : Prop :=
  match k, d with
  | MacOS, Spawn c =>
      command c = str "say" /\ last (args c) (Str []) = Str t
  | Android, Spawn c =>
      command c = str "termux-tts-speak" /\ last (args c) (Str []) = Str t
  | Windows, Spawn c =>
      c = WindowsVoiceProvider.powershell
            (WindowsVoiceProvider.speak_script options
               (replace WindowsVoiceProvider.re_dquote (lit (dq ++ dq)) t))
  | ElevenLabs, Fetch r =>
      exists rest, body r = Some (JObj ((str "text", JStr t) :: rest))
  | _, _ => False
  end.

(** ** Histories of a manager *)

(** The calls a client can make on a [VoiceManager], each with what the
    host answers during the call. *)
Inductive manager_call : Type :=
| CallInitialize (detect : VoiceProvider -> detection)
| CallSpeak (detect : VoiceProvider -> detection) (h : host)
    (text : jsstring) (options : option VoiceOptions)
| CallGetVoices (detect : VoiceProvider -> detection) (h : host)
| CallSetProvider (h : host) (providerName : jsstring).

(** The manager after a call. *)
Definition after_call (this : VoiceManager.t) (c : manager_call) : VoiceManager.t :=
  match c with
  | CallInitialize detect => VoiceManager.initialize detect this
  | CallSpeak detect h text options =>
      fst (VoiceManager.speak detect h this text options)
  | CallGetVoices detect h => fst (VoiceManager.getVoices detect h this)
  | CallSetProvider h providerName =>
      fst (VoiceManager.setProvider h this providerName)
  end.

Definition after_calls (this : VoiceManager.t) (cs : list manager_call)
  : VoiceManager.t :=
  fold_left after_call cs this.

(** A listed provider is one of the four constructed objects, flagged
    available. *)
Definition listed_ok (this : VoiceManager.t) (p : VoiceProvider) : Prop :=
  exists k, p = set_available (VoiceManager.object this k) true.

(** The state a manager keeps: nothing is listed or active before the
    initialization; every listed provider is a constructed object flagged
    available; the active provider is a listed one. *)
Definition manager_ok (this : VoiceManager.t) : Prop :=
  (VoiceManager.initialized this = false ->
   VoiceManager.providers this = [] /\ VoiceManager.activeProvider this = None)
  /\ Forall (listed_ok this) (VoiceManager.providers this)
  /\ (forall p, VoiceManager.activeProvider this = Some p ->
                In p (VoiceManager.providers this)).

(** A host on which only the macOS presence check succeeds. *)
Definition darwin_host : host :=
  {| platform := str "darwin";
     run := fun c =>
       if JS.eqb (command c) (str "which")
       then match args c with
            | [Str a] => if JS.eqb a (str "say")
                         then ProcExit (Some 0%Z) [] []
                         else ProcExit (Some 1%Z) [] []
            | _ => ProcExit (Some 1%Z) [] []
            end
       else ProcExit (Some 0%Z) [] [];
     fetch := fun _ => FetchThrows (str "fetch failed");
     now := 0%Z;
     toLowerCase := fun s => s |}.

(** Calls other than [setProvider]. *)
Definition keeps_active (c : manager_call) : bool :=
  match c with
  | CallSetProvider _ _ => false
  | _ => true
  end.

(** ** Vocabulary for the providers *)

(** A provider whose [speak] gets past its guard: flagged available, and
    for the cloud provider with a non-empty API key. *)
Definition usable (p : VoiceProvider) : bool :=
  available p
  && match class p with
     | ElevenLabs =>
         match if_string (apiKey p) with Some _ => true | None => false end
     | _ => true
     end.

(** The message of the guard of each [speak]. *)
Definition guard_message (k : provider_class) : error :=
  match k with
  | MacOS => str "macOS voice provider not available"
  | Windows => str "Windows voice provider not available"
  | Android => str "Android voice provider not available"
  | ElevenLabs => str "ElevenLabs API key not configured"
  end.

(** What the quote escaping of the Windows provider does to one
    character. *)
Definition escape_char (c : char) : jsstring :=
  if char_eqb c 34%N then dq ++ dq else [c].

(** The temporary file of [playAudio]. *)
Definition temp_file (h : host) : jsstring :=
  str "/tmp/voice-" ++ of_Z (now h) ++ str ".mp3".


Definition no_options : VoiceOptions :=
  {| voice := None; rate := None; pitch := None; volume := None |}.

(** ** Vocabulary for the voice listing of the Windows provider *)

(** [parts.join(sep)] for a separator of one character. *)
Fixpoint join (sep : char) (parts : list jsstring) : jsstring :=
  match parts with
  | [] => []
  | [p] => p
  | p :: ps => p ++ sep :: join sep ps
  end.

(** What the listing script prints for one voice: [Name|Culture|Gender]. *)
Definition voice_line (e : jsstring * jsstring * jsstring) : jsstring :=
  let '(n, l, g) := e in
  join WindowsVoiceProvider.bar [n; l; g].

(** The descriptor [getVoices] builds from the three fields. *)
Definition sapi_voice (h : host) (e : jsstring * jsstring * jsstring) : VoiceInfo :=
  let '(n, l, g) := e in
  {| id := n; vname := n; language := l;
     gender := Some (toLowerCase h g); quality := Some standard |}.

(** The fields of an entry contain neither the field separator nor a line
    feed. *)
Definition field_ok (f : jsstring) : Prop :=
  free (fun c => char_eqb c WindowsVoiceProvider.bar || char_eqb c 10%N) f.

Definition entry_ok (e : jsstring * jsstring * jsstring) : Prop :=
  let '(n, l, g) := e in field_ok n /\ field_ok l /\ field_ok g.

(** The number of field separators of a line. *)
Definition bars (l : jsstring) : nat :=
  count_occ N.eq_dec l WindowsVoiceProvider.bar.

(** A host whose processes exit with code 0 and print [stdout]. *)
Definition printing_host (stdout : jsstring) : host :=
  {| platform := str "win32";
     run := fun _ => ProcExit (Some 0%Z) stdout [];
     fetch := fun _ => FetchThrows (str "fetch failed");
     now := 0%Z;
     toLowerCase := fun s => s |}.

(** ** Vocabulary for the sanitizer *)

(** The characters the first four passes delete. *)
Definition is_deleted (c : char) : bool := is_angle c || is_star c || is_tick c.

(** A markdown link [[label](url)]. *)
Definition link (label url : jsstring) : jsstring :=
  ch "[" :: label ++ ch "]" :: ch "(" :: url ++ [ch ")"].

(** ** The device registry ([DeviceAuthManager]) *)

(** A [Map] with string keys, as the list of its entries in insertion
    order; every key occurs once. *)
Module JSMap.

Definition t (V : Type) : Type := list (jsstring * V).

Fixpoint get {V : Type} (k : jsstring) (m : t V) : option V :=
  match m with
  | [] => None
  | (k', v) :: r => if JS.eqb k' k then Some v else get k r
  end.

(** [set] keeps the place of a key that is present and appends a new
    one. *)
Fixpoint set {V : Type} (k : jsstring) (v : V) (m : t V) : t V :=
  match m with
  | [] => [(k, v)]
  | (k', v') :: r =>
      if JS.eqb k' k then (k', v) :: r else (k', v') :: set k v r
  end.

Definition delete {V : Type} (k : jsstring) (m : t V) : t V :=
  filter (fun e => negb (JS.eqb (fst e) k)) m.

Definition values {V : Type} (m : t V) : list V := List.map snd m.

Definition keys {V : Type} (m : t V) : list jsstring := List.map fst m.

End JSMap.

Module DeviceAuthManager.

Record Device : Type := {
  dev_id : jsstring;
  dev_name : jsstring;
  dev_type : jsstring;
  dev_platform : jsstring;
  fingerprint : jsstring;
  lastSeen : Z;                 (* a [Date], in milliseconds *)
  trusted : bool
}.

Record t : Type := {
  trustedDevices : JSMap.t Device;
  deviceTokens : JSMap.t jsstring      (* fingerprint -> token *)
}.

Definition new : t := {| trustedDevices := []; deviceTokens := [] |}.

(** What [registerDevice] reads from its environment: the hash function,
    [process.env.JWT_SECRET], sixteen random bytes in hexadecimal, and the
    clock at its three readings. *)
Record environment : Type := {
  sha256_hex : jsstring -> jsstring;
  JWT_SECRET : option jsstring;
  random_hex : jsstring;
  now_fingerprint : Z;
  now_lastSeen : Z;
  now_token : Z
}.

Definition generateDeviceId (e : environment) : jsstring :=
  str "dev_" ++ random_hex e.

Definition generateFingerprint (e : environment)
  (name type platform : jsstring) : jsstring :=
  let data := name ++ str "|" ++ type ++ str "|" ++ platform ++ str "|"
              ++ of_Z (now_fingerprint e) in
  sha256_hex e data.

Definition generateDeviceToken (e : environment) (fingerprint : jsstring)
  : jsstring :=
  let secret := match if_string (JWT_SECRET e) with
                | Some s => s
                | None => str "your-secret-key"
                end in
  let data := fingerprint ++ str "|" ++ secret ++ str "|" ++ of_Z (now_token e) in
  sha256_hex e data.

Definition registerDevice (e : environment) (this : t)
  (name type platform : jsstring) : t * (Device * jsstring) :=
  let id := generateDeviceId e in
  let fingerprint := generateFingerprint e name type platform in
  let newDevice :=
    {| dev_id := id; dev_name := name; dev_type := type;
       dev_platform := platform; fingerprint := fingerprint;
       lastSeen := now_lastSeen e; trusted := true |} in
  let devices := JSMap.set fingerprint newDevice (trustedDevices this) in
  let token := generateDeviceToken e fingerprint in
  let tokens := JSMap.set fingerprint token (deviceTokens this) in
  ({| trustedDevices := devices; deviceTokens := tokens |}, (newDevice, token)).

Definition seen_at (now : Z) (d : Device) : Device :=
  {| dev_id := dev_id d; dev_name := dev_name d; dev_type := dev_type d;
     dev_platform := dev_platform d; fingerprint := fingerprint d;
     lastSeen := now; trusted := trusted d |}.

Definition distrusted (d : Device) : Device :=
  {| dev_id := dev_id d; dev_name := dev_name d; dev_type := dev_type d;
     dev_platform := dev_platform d; fingerprint := fingerprint d;
     lastSeen := lastSeen d; trusted := false |}.

(** The loop of [verifyDevice] over the entries of [deviceTokens]: the
    first entry with the token whose device exists and is trusted. *)
Fixpoint find_device (devices : JSMap.t Device) (token : jsstring)
  (entries : list (jsstring * jsstring)) : option (jsstring * Device) :=
  match entries with
  | [] => None
  | (fingerprint, deviceToken) :: rest =>
      if JS.eqb deviceToken token then
        match JSMap.get fingerprint devices with
        | Some device =>
            if trusted device then Some (fingerprint, device)
            else find_device devices token rest
        | None => find_device devices token rest
        end
      else find_device devices token rest
  end.

(** [verifyDevice]: the device found has its [lastSeen] updated in the
    map, and is returned. *)
Definition verifyDevice (now : Z) (this : t) (token : jsstring)
  : t * option Device :=
  match find_device (trustedDevices this) token (deviceTokens this) with
  | Some (fingerprint, device) =>
      let device := seen_at now device in
      ({| trustedDevices := JSMap.set fingerprint device (trustedDevices this);
          deviceTokens := deviceTokens this |}, Some device)
  | None => (this, None)
  end.

Definition revokeDevice (this : t) (fingerprint : jsstring) : t * bool :=
  match JSMap.get fingerprint (trustedDevices this) with
  | Some device =>
      ({| trustedDevices :=
            JSMap.set fingerprint (distrusted device) (trustedDevices this);
          deviceTokens := JSMap.delete fingerprint (deviceTokens this) |}, true)
  | None => (this, false)
  end.

Definition getTrustedDevices (this : t) : list Device :=
  filter trusted (JSMap.values (trustedDevices this)).

Definition getDevice (this : t) (fingerprint : jsstring) : option Device :=
  JSMap.get fingerprint (trustedDevices this).

(** The calls a client can make, each with what the environment
    answers. *)
Inductive call : Type :=
| Register (e : environment) (name type platform : jsstring)
| Verify (now : Z) (token : jsstring)
| Revoke (fingerprint : jsstring).

Definition after_call (this : t) (c : call) : t :=
  match c with
  | Register e name type platform =>
      fst (registerDevice e this name type platform)
  | Verify now token => fst (verifyDevice now this token)
  | Revoke fingerprint => fst (revokeDevice this fingerprint)
  end.

Definition after_calls (cs : list call) : t := fold_left after_call cs new.

(** The token map holds [token] for some fingerprint. *)
Definition issued (this : t) (token : jsstring) : Prop :=
  exists fingerprint, In (fingerprint, token) (deviceTokens this).

(** What the registry keeps: distinct keys, every device stored under its
    own fingerprint, and a token for exactly the fingerprints whose device
    is trusted. *)
Definition registry_ok (this : t) : Prop :=
  NoDup (JSMap.keys (trustedDevices this))
  /\ (forall fp d, JSMap.get fp (trustedDevices this) = Some d -> fingerprint d = fp)
  /\ (forall fp,
        (exists token, JSMap.get fp (deviceTokens this) = Some token)
        <-> (exists d, JSMap.get fp (trustedDevices this) = Some d
                       /\ trusted d = true)).

(** A sample environment: the hash is the identity. *)
Definition sample_environment (t : Z) : environment :=
  {| sha256_hex := fun s => s;
     JWT_SECRET := None;
     random_hex := str "00112233445566778899aabbccddeeff";
     now_fingerprint := t;
     now_lastSeen := t;
     now_token := t |}.

End DeviceAuthManager.

(** *** Listings with carriage returns *)

(** An entry whose gender field is followed by a carriage return. *)
Definition with_cr (e : jsstring * jsstring * jsstring)
  : jsstring * jsstring * jsstring :=
  let '(n, l, g) := e in (n, l, g ++ [13%N]).

(** All entries but the last with a carriage return after the gender. *)
Fixpoint crlf_entries (es : list (jsstring * jsstring * jsstring))
  : list (jsstring * jsstring * jsstring) :=
  match es with
  | [] => []
  | [e] => [e]
  | e :: r => with_cr e :: crlf_entries r
  end.

(** The listing with every line ended by carriage return and line feed. *)
Definition crlf_listing (es : list (jsstring * jsstring * jsstring)) : jsstring :=
  flat_map (fun e => voice_line e ++ [13%N; 10%N]) es.

(** The name does not start and the gender does not end with white
    space. *)
Definition entry_trimmed (e : jsstring * jsstring * jsstring) : Prop :=
  let '(n, l, g) := e in headed n /\ headed (rev g).

(* ================================================================== *)
(** * Part II. Properties *)
(* ================================================================== *)

(** ** The manager *)

Section ManagerFacts.
Import VoiceManager.
Variable detect : VoiceProvider -> detection.
Variable key : option jsstring.

Let fresh := VoiceManager.new key.
Let avail (k : provider_class) : bool := reports (detect (object fresh k)).

Lemma created_objects :
  created fresh = List.map (object fresh) [MacOS; Windows; Android; ElevenLabs].
Proof. reflexivity. Qed.

(** The loop keeps what was pushed before and appends, in order, the
    providers whose detection reported available. *)
Lemma init_each_filter (todo pushed : list VoiceProvider) :
  init_each detect todo pushed
  = pushed ++ List.map (fun p => set_available p true)
                (filter (fun p => reports (detect p)) todo).
Proof.
  revert pushed. induction todo as [|p todo IH]; intros pushed; simpl.
  - now rewrite app_nil_r.
  - destruct (detect p) as [[|]|e]; simpl; rewrite IH; trivial.
    now rewrite <- app_assoc.
Qed.

Lemma initialize_providers :
  providers (initialize detect fresh)
  = List.map (fun p => set_available p true)
      (filter (fun p => reports (detect p)) (created fresh)).
Proof.
  unfold initialize, fresh. cbn [initialized VoiceManager.new providers].
  now rewrite init_each_filter.
Qed.

Lemma initialize_active :
  activeProvider (initialize detect fresh)
  = option_map (fun k => set_available (object fresh k) true)
      (Design.policy avail).
Proof.
  unfold initialize, fresh.
  cbn [initialized VoiceManager.new providers activeProvider].
  rewrite init_each_filter.
  unfold Design.policy, Design.natives, avail, fresh, created, object.
  cbn [elevenLabsApiKey VoiceManager.new filter find app].
  destruct (detect MacOSVoiceProvider.new) as [[|]|e1];
    destruct (detect WindowsVoiceProvider.new) as [[|]|e2];
    destruct (detect AndroidVoiceProvider.new) as [[|]|e3];
    destruct (detect (ElevenLabsVoiceProvider.new key)) as [[|]|e4];
    reflexivity.
Qed.
End ManagerFacts.
(** C1. For every assignment of detection results to the four providers,
    [initialize] on a new manager makes active the first available native
    provider in construction order (macOS, Windows, Android), else the
    ElevenLabs provider when it is available, else leaves the active
    provider unset.  The choice is a function of the availability results
    alone. *)
Theorem initialize_selects_by_policy
  (detect : VoiceProvider -> detection) (key : option jsstring) :
  let fresh := VoiceManager.new key in
  let avail k := reports (detect (VoiceManager.object fresh k)) in
  let m := VoiceManager.initialize detect fresh in
  VoiceManager.activeProvider m
  = option_map (fun k => set_available (VoiceManager.object fresh k) true)
      (if avail MacOS then Some MacOS
       else if avail Windows then Some Windows
       else if avail Android then Some Android
       else if avail ElevenLabs then Some ElevenLabs
       else None)
  /\ option_map class (VoiceManager.activeProvider m) = Design.policy avail.
Proof.
  cbv zeta. rewrite initialize_active.
  unfold Design.policy, Design.natives. cbn [find].
  split.
  - repeat match goal with |- context [if ?b then _ else _] => destruct b end;
      reflexivity.
  - repeat match goal with |- context [if ?b then _ else _] => destruct b end;
      reflexivity.
Qed.

(** With no provider reported available a new manager ends up with no
    active provider. *)
Lemma zero_available_no_active
  (detect : VoiceProvider -> detection) (key : option jsstring) :
  (forall k, reports (detect (VoiceManager.object (VoiceManager.new key) k)) = false) ->
  VoiceManager.activeProvider
    (VoiceManager.ensure_initialized detect (VoiceManager.new key)) = None.
Proof.
  intros H. unfold VoiceManager.ensure_initialized.
  cbn [VoiceManager.initialized VoiceManager.new negb].
  rewrite initialize_active. unfold Design.policy, Design.natives. cbn [find].
  now rewrite !H.
Qed.

(** C3. Whenever no provider is active once the lazy initialization of
    the call has run, [speak] rejects with the message
    [No voice provider available] and [getVoices] resolves to the empty
    list. *)
Theorem no_active_provider_speak_getVoices
  (detect : VoiceProvider -> detection) (h : host) (this : VoiceManager.t)
  (text : jsstring) (options : option VoiceOptions) :
  VoiceManager.activeProvider (VoiceManager.ensure_initialized detect this) = None ->
  snd (VoiceManager.speak detect h this text options)
    = Reject (str "No voice provider available")
  /\ snd (VoiceManager.getVoices detect h this) = Resolve [].
Proof.
  intros H. unfold VoiceManager.speak, VoiceManager.getVoices.
  rewrite H. split; reflexivity.
Qed.

Lemma no_active_provider_speak_getVoices_witness :
  snd (VoiceManager.speak nothing_detected quiet_host (VoiceManager.new None)
         (str "hello") None)
    = Reject (str "No voice provider available")
  /\ snd (VoiceManager.getVoices nothing_detected quiet_host (VoiceManager.new None))
     = Resolve [].
Proof.
  apply (no_active_provider_speak_getVoices nothing_detected quiet_host
           (VoiceManager.new None) (str "hello") None).
  reflexivity.
Defined.

(** C5 as stated fails: when no detection reports available,
    [getProviders] is empty although four providers were constructed. *)
Lemma getProviders_not_all_constructed :
  let m := VoiceManager.initialize nothing_detected (VoiceManager.new None) in
  VoiceManager.getProviders m = []
  /\ List.length (VoiceManager.created (VoiceManager.new None)) = 4%nat
  /\ ~ (forall detect key,
          List.map class
            (VoiceManager.getProviders
               (VoiceManager.initialize detect (VoiceManager.new key)))
          = [MacOS; Windows; Android; ElevenLabs]).
Proof.
  cbv zeta. split; [reflexivity | split; [reflexivity |]].
  intros H. specialize (H nothing_detected None). discriminate H.
Qed.

(** C5, amended. After [initialize], [getProviders] returns exactly the
    constructed providers whose detection reported available, in
    construction order, each with its name and [available = true];
    providers reported unavailable are not listed. *)
Theorem getProviders_lists_available
  (detect : VoiceProvider -> detection) (key : option jsstring) :
  let fresh := VoiceManager.new key in
  let m := VoiceManager.initialize detect fresh in
  VoiceManager.getProviders m
  = List.map (fun p => set_available p true)
      (filter (fun p => reports (detect p)) (VoiceManager.created fresh))
  /\ Forall (fun p => available p = true) (VoiceManager.getProviders m)
  /\ List.map name (VoiceManager.getProviders m)
     = List.map name
         (filter (fun p => reports (detect p)) (VoiceManager.created fresh)).
Proof.
  cbv zeta. unfold VoiceManager.getProviders. rewrite initialize_providers.
  split; [reflexivity | split].
  - apply Forall_forall. intros p Hp. apply in_map_iff in Hp.
    destruct Hp as [q [<- _]]. reflexivity.
  - rewrite map_map. reflexivity.
Qed.

(** ** Numeric options *)

Lemma max_min_is_clamp (x : Z) :
  Z.max (-10) (Z.min 10 x) = Design.clamp x (-10) 10.
Proof.
  unfold Design.clamp.
  destruct (Z.ltb_spec x (-10)); destruct (Z.ltb_spec 10 x); lia.
Qed.

Lemma normalizeRate_range (wpm : Q) :
  (-10 <= WindowsVoiceProvider.normalizeRate wpm <= 10)%Z.
Proof. unfold WindowsVoiceProvider.normalizeRate. lia. Qed.

(** C2 as stated fails at input 80: (80 - 180) / 20 is -5, which lies
    inside the range and is not clamped. *)
Lemma normalizeRate_80_is_minus_5 :
  WindowsVoiceProvider.normalizeRate 80 = (-5)%Z
  /\ WindowsVoiceProvider.normalizeRate 80 <> (-10)%Z.
Proof. split; [reflexivity | discriminate]. Qed.

(** C2, amended. The rate normalization of the Windows provider computes
    [clamp(round((wpm-180)/20), -10, 10)]: input 180 gives 0, input 200
    gives 1, input 400 gives 10 (clamped) and input 80 gives -5 (not
    clamped); the lower clamp is reached at inputs such as -20 and -100. *)
Theorem normalizeRate_is_clamped_formula :
  (forall wpm : Q, WindowsVoiceProvider.normalizeRate wpm = Design.rate_formula wpm)
  /\ WindowsVoiceProvider.normalizeRate 180 = 0%Z
  /\ WindowsVoiceProvider.normalizeRate 200 = 1%Z
  /\ WindowsVoiceProvider.normalizeRate 400 = 10%Z
  /\ WindowsVoiceProvider.normalizeRate 80 = (-5)%Z
  /\ WindowsVoiceProvider.normalizeRate (-20) = (-10)%Z
  /\ WindowsVoiceProvider.normalizeRate (-100) = (-10)%Z.
Proof.
  split.
  - intros wpm. unfold WindowsVoiceProvider.normalizeRate, Design.rate_formula.
    apply max_min_is_clamp.
  - repeat split; reflexivity.
Qed.

Lemma clamp_tts_range (x : Q) :
  (1 # 10 <= AndroidVoiceProvider.clamp_tts x)%Q
  /\ (AndroidVoiceProvider.clamp_tts x <= 2)%Q.
Proof.
  unfold AndroidVoiceProvider.clamp_tts. split.
  - apply Q.le_max_l.
  - apply Q.max_lub.
    + discriminate.
    + apply Q.le_min_l.
Qed.

Lemma macos_rate_argument (text : jsstring) (r : Q) :
  truthy_number r = true ->
  MacOSVoiceProvider.speak_call macos text (with_rate r)
  = Resolve {| command := str "say";
               args := [Str (str "-r"); NumToString r; Str (sanitizeText text)] |}.
Proof.
  intros Hr. unfold MacOSVoiceProvider.speak_call, with_rate, if_number,
    opt_rate, opt_voice, if_string.
  cbn [available macos set_available negb rate voice]. now rewrite Hr.
Qed.

(** C7 as stated fails for the macOS provider: the rate option reaches
    the [say] command as it was given, however large or negative, so that
    no range bounds the rates the command receives. *)
Lemma macos_rate_passed_unclamped :
  MacOSVoiceProvider.speak_call macos (str "hi") (with_rate 1000000)
  = Resolve {| command := str "say";
               args := [Str (str "-r"); NumToString 1000000; Str (str "hi")] |}
  /\ MacOSVoiceProvider.speak_call macos (str "hi") (with_rate (-5))
     = Resolve {| command := str "say";
                  args := [Str (str "-r"); NumToString (-5); Str (str "hi")] |}
  /\ ~ (exists lo hi : Q,
          forall (r : Q) (c : spawn_call) (q : Q),
            MacOSVoiceProvider.speak_call macos (str "hi") (with_rate r) = Resolve c ->
            In (NumToString q) (args c) ->
            (lo <= q)%Q /\ (q <= hi)%Q).
Proof.
  split; [reflexivity | split; [reflexivity |]].
  intros [lo [hi H]].
  set (r := (Qmax hi 0 + 1)%Q).
  assert (Hpos : (0 < r)%Q).
  { unfold r. apply Qle_lt_trans with (Qmax hi 0); [apply Q.le_max_r |].
    rewrite <- (Qplus_0_r (Qmax hi 0)) at 1.
    apply Qplus_lt_r. reflexivity. }
  assert (Ht : truthy_number r = true).
  { unfold truthy_number. destruct (Qeq_bool r 0) eqn:E; [| reflexivity].
    apply Qeq_bool_eq in E. rewrite E in Hpos. discriminate Hpos. }
  destruct (H r _ r (macos_rate_argument (str "hi") r Ht)) as [_ Hhi].
  - right. left. reflexivity.
  - apply (Qle_not_lt _ _ Hhi). unfold r.
    apply Qle_lt_trans with (Qmax hi 0); [apply Q.le_max_l |].
    rewrite <- (Qplus_0_r (Qmax hi 0)) at 1.
    apply Qplus_lt_r. reflexivity.
Qed.

(** The value [Math.max(0.1, Math.min(2.0, x))] lies in 0.1..2.0, is [x]
    itself when [x] lies there, and the nearer bound otherwise. *)
Lemma clamp_tts_cases (x : Q) :
  ((x <= 1 # 10)%Q -> (AndroidVoiceProvider.clamp_tts x == 1 # 10)%Q)
  /\ ((1 # 10 <= x)%Q -> (x <= 2)%Q -> (AndroidVoiceProvider.clamp_tts x == x)%Q)
  /\ ((2 <= x)%Q -> (AndroidVoiceProvider.clamp_tts x == 2)%Q).
Proof.
  unfold AndroidVoiceProvider.clamp_tts. repeat split.
  - intros Hx. apply Q.max_l. rewrite Q.min_r by lra. exact Hx.
  - intros H1 H2. rewrite Q.min_r by exact H2. now apply Q.max_r.
  - intros Hx. rewrite Q.min_l by exact Hx. apply Q.max_r. discriminate.
Qed.

(** The arguments of the Android call: the rate and the pitch that were
    supplied, each clamped, then the sanitized text. *)
Lemma android_speak_call_args (text : jsstring) (options : option VoiceOptions) :
  AndroidVoiceProvider.speak_call android text options
  = Resolve {| command := str "termux-tts-speak";
               args :=
                 (match if_number (opt_rate options) with
                  | Some r => [Str (str "-r");
                               NumToFixed 2 (AndroidVoiceProvider.clamp_tts (r / 175))]
                  | None => []
                  end)
                 ++ (match if_number (opt_pitch options) with
                     | Some p => [Str (str "-p");
                                  NumToFixed 2 (AndroidVoiceProvider.clamp_tts p)]
                     | None => []
                     end)
                 ++ [Str (sanitizeText text)] |}.
Proof.
  unfold AndroidVoiceProvider.speak_call. cbn [available android set_available negb].
  destruct (if_number (opt_rate options)), (if_number (opt_pitch options));
    reflexivity.
Qed.

(** C7, amended. The Windows provider writes a supplied (non-zero) rate
    into its script as [normalizeRate] of it, an integer clamped into
    -10..10; the Android provider passes a supplied (non-zero) rate,
    divided by 175, and a supplied (non-zero) pitch, each clamped into
    0.1..2.0 (unchanged inside that range), and no other number; the macOS
    provider passes a supplied rate to the external command unchanged,
    without clamping. *)
Theorem rate_pitch_clamping :
  (forall text options r,
     if_number (opt_rate options) = Some r ->
     (-10 <= WindowsVoiceProvider.normalizeRate r <= 10)%Z
     /\ WindowsVoiceProvider.speak_call windows text options
        = Resolve (WindowsVoiceProvider.powershell
            (nl
             ++ WindowsVoiceProvider.line (str "Add-Type -AssemblyName System.Speech")
             ++ WindowsVoiceProvider.line
                  (str "$synth = New-Object System.Speech.Synthesis.SpeechSynthesizer")
             ++ WindowsVoiceProvider.line (WindowsVoiceProvider.voice_statement options)
             ++ WindowsVoiceProvider.line
                  (str "$synth.Rate = " ++ of_Z (WindowsVoiceProvider.normalizeRate r))
             ++ WindowsVoiceProvider.line
                  (str "$synth.Speak(" ++ dq
                   ++ replace WindowsVoiceProvider.re_dquote (lit (dq ++ dq))
                        (sanitizeText text)
                   ++ dq ++ str ")")
             ++ WindowsVoiceProvider.line (str "$synth.Dispose()")
             ++ str "    ")))
  /\ (forall text options r,
        if_number (opt_rate options) = Some r ->
        exists rest,
          AndroidVoiceProvider.speak_call android text options
          = Resolve {| command := str "termux-tts-speak";
                       args := Str (str "-r")
                               :: NumToFixed 2 (AndroidVoiceProvider.clamp_tts (r / 175))
                               :: rest |})
  /\ (forall text options p,
        if_number (opt_pitch options) = Some p ->
        exists before,
          AndroidVoiceProvider.speak_call android text options
          = Resolve {| command := str "termux-tts-speak";
                       args := before
                               ++ [Str (str "-p");
                                   NumToFixed 2 (AndroidVoiceProvider.clamp_tts p);
                                   Str (sanitizeText text)] |})
  /\ (forall x : Q,
        (1 # 10 <= AndroidVoiceProvider.clamp_tts x)%Q
        /\ (AndroidVoiceProvider.clamp_tts x <= 2)%Q
        /\ ((1 # 10 <= x)%Q -> (x <= 2)%Q ->
            (AndroidVoiceProvider.clamp_tts x == x)%Q))
  /\ (forall text options,
        exists c, AndroidVoiceProvider.speak_call android text options = Resolve c
                  /\ Forall within_tts_range (args c))
  /\ (forall text options r,
        if_number (opt_rate options) = Some r ->
        exists before,
          MacOSVoiceProvider.speak_call macos text options
          = Resolve {| command := str "say";
                       args := before
                               ++ [Str (str "-r"); NumToString r;
                                   Str (sanitizeText text)] |}).
Proof.
  split; [| split; [| split; [| split; [| split]]]].
  - intros text options r Hr. split; [apply normalizeRate_range |].
    unfold WindowsVoiceProvider.speak_call, WindowsVoiceProvider.speak_script,
      WindowsVoiceProvider.rate_statement.
    cbn [available windows set_available negb]. now rewrite Hr.
  - intros text options r Hr. rewrite android_speak_call_args, Hr.
    eexists. reflexivity.
  - intros text options p Hp. rewrite android_speak_call_args, Hp.
    exists (match if_number (opt_rate options) with
            | Some r => [Str (str "-r");
                         NumToFixed 2 (AndroidVoiceProvider.clamp_tts (r / 175))]
            | None => []
            end).
    reflexivity.
  - intros x. destruct (clamp_tts_range x) as [H1 H2].
    split; [exact H1 | split; [exact H2 |]].
    apply (proj1 (proj2 (clamp_tts_cases x))).
  - intros text options. rewrite android_speak_call_args.
    eexists; split; [reflexivity |]. cbn [args].
    destruct (if_number (opt_rate options)) as [r|];
      destruct (if_number (opt_pitch options)) as [p|]; cbn [app];
      repeat constructor; apply clamp_tts_range.
  - intros text options r Hr. unfold MacOSVoiceProvider.speak_call.
    cbn [available macos set_available negb]. rewrite Hr.
    exists (match if_string (opt_voice options) with
            | Some v => [Str (str "-v"); Str v]
            | None => []
            end).
    destruct (if_string (opt_voice options)); reflexivity.
Qed.

Lemma rate_pitch_clamping_witness :
  (exists before,
     MacOSVoiceProvider.speak_call macos (str "hi") (with_rate 300)
     = Resolve {| command := str "say";
                  args := before ++ [Str (str "-r"); NumToString 300;
                                     Str (sanitizeText (str "hi"))] |})
  /\ (exists rest,
        AndroidVoiceProvider.speak_call android (str "hi") (with_rate_pitch 1000 (1 # 100))
        = Resolve {| command := str "termux-tts-speak";
                     args := Str (str "-r")
                             :: NumToFixed 2 (AndroidVoiceProvider.clamp_tts (1000 / 175))
                             :: rest |})
  /\ (-10 <= WindowsVoiceProvider.normalizeRate 400 <= 10)%Z.
Proof.
  destruct rate_pitch_clamping as [Hw [Hr [_ [_ [_ Hm]]]]].
  split; [| split].
  - apply (Hm (str "hi") (with_rate 300) 300%Q). reflexivity.
  - apply (Hr (str "hi") (with_rate_pitch 1000 (1 # 100)) 1000%Q). reflexivity.
  - apply (Hw (str "hi") (with_rate 400) 400%Q). reflexivity.
Defined.

(** ** The cloud provider's request *)

(** C10. The request the ElevenLabs provider issues depends on the text
    only through its sanitized form and on the options only through
    [options.voice] (the built-in voice id when it is absent or empty):
    rate, pitch and volume are ignored. *)
Theorem elevenlabs_request_ignores_rate_pitch_volume
  (this : VoiceProvider) (text1 text2 : jsstring)
  (options1 options2 : option VoiceOptions) :
  opt_voice options1 = opt_voice options2 ->
  sanitizeText text1 = sanitizeText text2 ->
  ElevenLabsVoiceProvider.speak_request this text1 options1
  = ElevenLabsVoiceProvider.speak_request this text2 options2.
Proof.
  intros Hv Ht. unfold ElevenLabsVoiceProvider.speak_request.
  now rewrite Hv, Ht.
Qed.

Lemma elevenlabs_request_ignores_rate_pitch_volume_witness :
  ElevenLabsVoiceProvider.speak_request elevenlabs (str "**hi**")
    (with_rate_pitch 300 2)
  = ElevenLabsVoiceProvider.speak_request elevenlabs (str "hi") None.
Proof.
  apply (elevenlabs_request_ignores_rate_pitch_volume elevenlabs
           (str "**hi**") (str "hi") (with_rate_pitch 300 2) None);
    reflexivity.
Defined.

(** The voice id of the request is [options.voice], or the built-in id. *)
Lemma elevenlabs_request_url (text : jsstring) (options : option VoiceOptions) :
  exists r,
    ElevenLabsVoiceProvider.speak_request elevenlabs text options = Resolve r
    /\ url r = str "https://api.elevenlabs.io/v1/text-to-speech/"
               ++ match if_string (opt_voice options) with
                  | Some v => v
                  | None => ElevenLabsVoiceProvider.defaultVoiceId
                  end.
Proof. eexists. split; reflexivity. Qed.

(** ** Listing voices *)

Lemma unavailable_getVoices (h : host) (p : VoiceProvider) :
  available p = false -> provider_getVoices h p = Resolve [].
Proof.
  intros Ha. unfold provider_getVoices.
  destruct (class p).
  - unfold MacOSVoiceProvider.getVoices. now rewrite Ha.
  - unfold WindowsVoiceProvider.getVoices. now rewrite Ha.
  - unfold AndroidVoiceProvider.getVoices. now rewrite Ha.
  - unfold ElevenLabsVoiceProvider.getVoices. now rewrite Ha.
Qed.

Lemma elevenlabs_getVoices_resolves (h : host) (p : VoiceProvider) :
  exists vs, ElevenLabsVoiceProvider.getVoices h p = Resolve vs.
Proof.
  unfold ElevenLabsVoiceProvider.getVoices.
  destruct (available p); [| eexists; reflexivity].
  destruct (if_string (apiKey p)) as [key|]; [| eexists; reflexivity].
  destruct (fetch h _) as [e|r]; [eexists; reflexivity |].
  destruct (ok r); [| eexists; reflexivity].
  destruct (voices r); eexists; reflexivity.
Qed.

(** C6 as stated fails for the Windows provider: when the voice-listing
    subprocess exits with a non-zero code, [getVoices] rejects. *)
Lemma windows_getVoices_rejects :
  WindowsVoiceProvider.getVoices quiet_host windows
  = Reject (str "PowerShell exited with code 1: ").
Proof. reflexivity. Qed.

(** C6, amended. Every provider's [getVoices] resolves to the empty list
    when the provider is unavailable.  The macOS, Android and ElevenLabs
    providers never reject, and the ElevenLabs provider resolves to the
    empty list when the request throws, the response is not ok, or its
    body cannot be read.  The Windows provider rejects when its
    subprocess emits an error or exits with a non-zero code. *)
Theorem getVoices_failure_behaviour (h : host) (p : VoiceProvider) :
  (available p = false -> provider_getVoices h p = Resolve [])
  /\ (class p <> Windows -> exists vs, provider_getVoices h p = Resolve vs)
  /\ (class p = ElevenLabs ->
      forall key, if_string (apiKey p) = Some key ->
        match fetch h (ElevenLabsVoiceProvider.voices_request key) with
        | FetchThrows _ => True
        | FetchResponse r => ok r = false \/ voices r = None
        end ->
        provider_getVoices h p = Resolve [])
  /\ (class p = Windows -> available p = true ->
      match run h (WindowsVoiceProvider.powershell WindowsVoiceProvider.voices_script) with
      | ProcError e => provider_getVoices h p = Reject e
      | ProcExit code _ stderr =>
          exit_ok code = false ->
          provider_getVoices h p
          = Reject (WindowsVoiceProvider.exit_error code stderr)
      end).
Proof.
  split; [apply unavailable_getVoices | split; [| split]].
  - intros Hc. unfold provider_getVoices.
    destruct (class p); try congruence.
    + unfold MacOSVoiceProvider.getVoices.
      destruct (available p); eexists; reflexivity.
    + unfold AndroidVoiceProvider.getVoices.
      destruct (available p); eexists; reflexivity.
    + apply elevenlabs_getVoices_resolves.
  - intros Hc key Hk Hf. unfold provider_getVoices. rewrite Hc.
    unfold ElevenLabsVoiceProvider.getVoices. rewrite Hk.
    destruct (available p); [| reflexivity].
    destruct (fetch h _) as [e|r]; [reflexivity |].
    destruct Hf as [Hf|Hf]; [now rewrite Hf |].
    rewrite Hf. now destruct (ok r).
  - intros Hc Ha. unfold provider_getVoices. rewrite Hc.
    unfold WindowsVoiceProvider.getVoices. rewrite Ha. cbn [negb].
    destruct (run h _) as [e|code out err]; [reflexivity |].
    intros Hx. now rewrite Hx.
Qed.

Lemma getVoices_failure_behaviour_witness :
  provider_getVoices quiet_host WindowsVoiceProvider.new = Resolve []
  /\ provider_getVoices quiet_host elevenlabs = Resolve []
  /\ provider_getVoices quiet_host windows
     = Reject (WindowsVoiceProvider.exit_error (Some 1%Z) []).
Proof.
  split; [| split].
  - apply (proj1 (getVoices_failure_behaviour quiet_host WindowsVoiceProvider.new)).
    reflexivity.
  - apply (proj1 (proj2 (proj2 (getVoices_failure_behaviour quiet_host elevenlabs)))
             eq_refl (str "sk-test") eq_refl).
    exact I.
  - apply (proj2 (proj2 (proj2 (getVoices_failure_behaviour quiet_host windows)))
             eq_refl eq_refl).
    reflexivity.
Defined.

(** ** Regular expressions and [replace] *)

Section RegexFacts.
Context {A : Type}.

Lemma one_inv (p : char -> bool) (k : char -> jsstring -> option A) s x :
  one p k s = Some x ->
  exists c r, s = c :: r /\ p c = true /\ k c r = Some x.
Proof.
  destruct s as [|c r]; simpl; [discriminate |].
  destruct (p c) eqn:Hp; [| discriminate].
  intros H. now exists c, r.
Qed.

Lemma one_reject (p : char -> bool) (k : char -> jsstring -> option A) c r :
  p c = false -> one p k (c :: r) = None.
Proof. intros H. simpl. now rewrite H. Qed.

(** A greedy repetition hands its continuation a split of the input. *)
Lemma many_from_inv (p : char -> bool) (k : jsstring -> jsstring -> option A)
  s acc x :
  many_from p k acc s = Some x ->
  exists pre rest, s = pre ++ rest /\ k (acc ++ pre) rest = Some x.
Proof.
  revert acc. induction s as [|c r IH]; intros acc; simpl.
  - intros H. exists [], []. now rewrite !app_nil_r.
  - destruct (p c).
    + destruct (many_from p k (acc ++ [c]) r) as [y|] eqn:Hm.
      * intros [= <-]. apply IH in Hm. destruct Hm as [pre [rest [-> Hk]]].
        exists (c :: pre), rest. split; [reflexivity |].
        now rewrite <- app_assoc in Hk.
      * intros H. exists [], (c :: r). now rewrite !app_nil_r.
    + intros H. exists [], (c :: r). now rewrite !app_nil_r.
Qed.

Lemma upto_from_inv (p : char -> bool) (k : jsstring -> jsstring -> option A)
  n s acc x :
  upto_from n p k acc s = Some x ->
  exists pre rest, s = pre ++ rest /\ k (acc ++ pre) rest = Some x.
Proof.
  revert s acc. induction n as [|n IH]; intros s acc; simpl.
  - intros H. exists [], s. now rewrite !app_nil_r.
  - destruct s as [|c r].
    + intros H. exists [], []. now rewrite !app_nil_r.
    + destruct (p c).
      * destruct (upto_from n p k (acc ++ [c]) r) as [y|] eqn:Hm.
        -- intros [= <-]. apply IH in Hm. destruct Hm as [pre [rest [-> Hk]]].
           exists (c :: pre), rest. split; [reflexivity |].
           now rewrite <- app_assoc in Hk.
        -- intros H. exists [], (c :: r). now rewrite !app_nil_r.
      * intros H. exists [], (c :: r). now rewrite !app_nil_r.
Qed.
End RegexFacts.

Section ReplaceFacts.
Variable re : regex.
Variable repl : jsstring -> jsstring.

(** Passing over the rest of a match is dropping that many characters. *)
Lemma replace_from_skipn (s : jsstring) (n : nat) :
  replace_from re repl n s = replace re repl (skipn n s).
Proof.
  revert n. induction s as [|c r IH]; intros [|n]; try reflexivity.
  simpl. apply IH.
Qed.

Lemma replace_nil : replace re repl [] = [].
Proof. reflexivity. Qed.

Lemma replace_no_match (c : char) (r : jsstring) :
  re (c :: r) = None -> replace re repl (c :: r) = c :: replace re repl r.
Proof. unfold replace. simpl. now intros ->. Qed.

(** At a match the scan emits the replacement and resumes after it. *)
Lemma replace_match (m rest g : jsstring) :
  m <> [] -> re (m ++ rest) = Some (g, rest) ->
  replace re repl (m ++ rest) = repl g ++ replace re repl rest.
Proof.
  destruct m as [|c m]; [congruence |]. intros _ H.
  unfold replace. cbn [app replace_from]. cbn [app] in H. rewrite H.
  rewrite replace_from_skipn. f_equal.
  rewrite length_app, Nat.add_sub. now rewrite skipn_app, skipn_all, Nat.sub_diag.
Qed.

(** The output keeps a property of characters that the input and every
    replacement have. *)
Lemma replace_from_Forall (P : char -> Prop) :
  (forall s g rest, re s = Some (g, rest) -> Forall P s -> Forall P (repl g)) ->
  forall s n, Forall P s -> Forall P (replace_from re repl n s).
Proof.
  intros Hre. induction s as [|c r IH]; intros n Hs; [constructor |].
  inversion Hs as [|? ? Hc Hr]; subst. destruct n as [|n]; simpl.
  - destruct (re (c :: r)) as [[g rest]|] eqn:Hm.
    + apply Forall_app. split; [now apply (Hre _ _ _ Hm) | now apply IH].
    + constructor; [assumption | now apply IH].
  - now apply IH.
Qed.
End ReplaceFacts.

(** A pattern that starts with a class finds nothing in a text without
    characters of that class. *)
Lemma replace_one_id (p : char -> bool) k repl (s : jsstring) :
  Forall (fun c => p c = false) s -> replace (one p k) repl s = s.
Proof.
  induction 1 as [|c r Hc Hr IH]; [reflexivity |].
  rewrite replace_no_match by now apply one_reject. now rewrite IH.
Qed.

Lemma replace_one_prefix (p : char -> bool) k repl (pre s : jsstring) :
  Forall (fun c => p c = false) pre ->
  replace (one p k) repl (pre ++ s) = pre ++ replace (one p k) repl s.
Proof.
  induction 1 as [|c r Hc Hr IH]; [reflexivity |].
  cbn [app]. rewrite replace_no_match by now apply one_reject. now rewrite IH.
Qed.

(** Deleting the matches of a one-character class is filtering. *)
Lemma replace_class (p : char -> bool) (s : jsstring) :
  replace (one p (fun _ => accept)) (lit []) s = filter (fun c => negb (p c)) s.
Proof.
  induction s as [|c r IH]; [reflexivity |].
  cbn [filter]. destruct (p c) eqn:Hp; cbn [negb].
  - change (c :: r) with ([c] ++ r).
    rewrite replace_match with (g := []); [exact IH | discriminate |].
    simpl. now rewrite Hp.
  - rewrite replace_no_match by now apply one_reject. now rewrite IH.
Qed.

(** ** Character classes *)

Lemma free_filter (p : char -> bool) (s : jsstring) :
  free p (filter (fun c => negb (p c)) s).
Proof.
  apply Forall_forall. intros c Hc. apply filter_In in Hc.
  destruct Hc as [_ Hc]. now destruct (p c).
Qed.

Lemma Forall_filter_keep (P : char -> Prop) (f : char -> bool) (s : jsstring) :
  Forall P s -> Forall P (filter f s).
Proof.
  intros H. apply Forall_forall. intros c Hc. apply filter_In in Hc.
  destruct Hc as [Hc _]. revert c Hc. now apply Forall_forall.
Qed.

Lemma replace_delete_Forall (P : char -> Prop) (re : regex) (s : jsstring) :
  Forall P s -> Forall P (replace re (lit []) s).
Proof.
  intros H. apply replace_from_Forall; [| assumption].
  intros; constructor.
Qed.

(** Reading a successful match backwards, one combinator at a time. *)
Ltac invert_one H :=
  apply one_inv in H;
  let c := fresh "c" in
  let r := fresh "r" in
  destruct H as [c [r [-> [_ H]]]].

Ltac invert_many H :=
  apply many_from_inv in H;
  let cs := fresh "cs" in
  let r := fresh "r" in
  destruct H as [cs [r [-> H]]].

(** ** [trim] *)

Lemma trimStart_headed (s : jsstring) : headed (trimStart s).
Proof.
  induction s as [|c r IH]; simpl; [exact I |].
  destruct (is_space c) eqn:Hc; [exact IH | exact Hc].
Qed.

Lemma trimStart_fixed (s : jsstring) : headed s -> trimStart s = s.
Proof. destruct s as [|c r]; simpl; [reflexivity |]. now intros ->. Qed.

Lemma trimStart_snoc (s : jsstring) (c : char) :
  is_space c = false -> trimStart (s ++ [c]) = trimStart s ++ [c].
Proof.
  intros Hc. induction s as [|d r IH]; simpl.
  - now rewrite Hc.
  - destruct (is_space d); [exact IH | reflexivity].
Qed.

Lemma trimEnd_headed (s : jsstring) : headed s -> headed (trimEnd s).
Proof.
  destruct s as [|c r]; [intros _; exact I |].
  intros Hc. unfold trimEnd. cbn [rev].
  rewrite trimStart_snoc by exact Hc. rewrite rev_unit. exact Hc.
Qed.

Lemma trimEnd_idempotent (s : jsstring) : trimEnd (trimEnd s) = trimEnd s.
Proof.
  unfold trimEnd. rewrite rev_involutive.
  now rewrite (trimStart_fixed _ (trimStart_headed (rev s))).
Qed.

Lemma trim_idempotent (s : jsstring) : trim (trim s) = trim s.
Proof.
  unfold trim at 1.
  rewrite (trimStart_fixed (trim s)).
  - unfold trim. apply trimEnd_idempotent.
  - unfold trim. apply trimEnd_headed, trimStart_headed.
Qed.

Lemma trimStart_Forall (P : char -> Prop) (s : jsstring) :
  Forall P s -> Forall P (trimStart s).
Proof.
  induction 1 as [|c r Hc Hr IH]; simpl; [constructor |].
  destruct (is_space c); [exact IH | now constructor].
Qed.

Lemma trim_Forall (P : char -> Prop) (s : jsstring) :
  Forall P s -> Forall P (trim s).
Proof.
  intros H. unfold trim, trimEnd.
  apply Forall_rev, trimStart_Forall, Forall_rev, trimStart_Forall, H.
Qed.

(** ** The passes of the sanitizer *)

(** The label of a link match is made of characters of the input. *)
Lemma re_link_group (s g rest : jsstring) :
  re_link s = Some (g, rest) -> incl g s.
Proof.
  unfold re_link, many. intros H.
  do 2 invert_one H. invert_many H. do 3 invert_one H. invert_many H.
  invert_one H. injection H as <- <-. cbn [app].
  intros x [<- | Hx]; [right; left; reflexivity |].
  right. right. apply in_or_app. now left.
Qed.

Lemma replace_link_Forall (P : char -> Prop) (s : jsstring) :
  Forall P s -> Forall P (replace re_link group1 s).
Proof.
  intros H. apply replace_from_Forall; [| assumption].
  intros t g rest Hm Ht. unfold group1.
  apply Forall_forall. intros x Hx.
  apply (proj1 (Forall_forall P t) Ht). eapply re_link_group; eassumption.
Qed.

(** The sanitized text never contains an angle bracket, an asterisk or a
    backtick. *)
Lemma sanitizeText_free_angle (x : jsstring) : free is_angle (sanitizeText x).
Proof.
  unfold sanitizeText, free.
  apply trim_Forall, replace_link_Forall.
  do 4 apply replace_delete_Forall.
  unfold re_angle. rewrite replace_class. apply free_filter.
Qed.

Lemma sanitizeText_free_star (x : jsstring) : free is_star (sanitizeText x).
Proof.
  unfold sanitizeText, free.
  apply trim_Forall, replace_link_Forall.
  do 2 apply replace_delete_Forall.
  unfold re_star. rewrite replace_class. apply free_filter.
Qed.

Lemma sanitizeText_free_tick (x : jsstring) : free is_tick (sanitizeText x).
Proof.
  unfold sanitizeText, free.
  apply trim_Forall, replace_link_Forall.
  apply replace_delete_Forall.
  unfold re_tick. rewrite replace_class. apply free_filter.
Qed.

(** On a text without angle brackets, asterisks and backticks only the
    header pass, the link pass and the trim remain. *)
Lemma sanitizeText_late_passes (y : jsstring) :
  free is_angle y -> free is_star y -> free is_tick y ->
  sanitizeText y = trim (replace re_link group1 (replace re_header (lit []) y)).
Proof.
  intros Ha Hs Ht. unfold sanitizeText.
  assert (E1 : replace re_angle (lit []) y = y)
    by (unfold re_angle; now apply replace_one_id).
  assert (E2 : replace re_bold (lit []) y = y)
    by (unfold re_bold; now apply replace_one_id).
  assert (E3 : replace re_star (lit []) y = y)
    by (unfold re_star; now apply replace_one_id).
  assert (E4 : replace re_tick (lit []) y = y)
    by (unfold re_tick; now apply replace_one_id).
  now rewrite E1, E2, E3, E4.
Qed.

(** Applied to its own output, the sanitizer only runs the header pass,
    the link pass and the trim again. *)
Lemma sanitizeText_twice (x : jsstring) :
  sanitizeText (sanitizeText x)
  = trim (replace re_link group1 (replace re_header (lit []) (sanitizeText x))).
Proof.
  apply sanitizeText_late_passes.
  - apply sanitizeText_free_angle.
  - apply sanitizeText_free_star.
  - apply sanitizeText_free_tick.
Qed.

Lemma existsb_free (p q : char -> bool) (s : jsstring) :
  (forall c, p c = true -> q c = true) ->
  existsb q s = false -> free p s.
Proof.
  intros Hpq H. apply Forall_forall. intros c Hc.
  destruct (p c) eqn:Hp; [| reflexivity].
  assert (existsb q s = true) by (apply existsb_exists; exists c; auto).
  congruence.
Qed.

(** C9 as stated fails: a link whose label contains a link, and seven
    [#] before two spaces, are each changed again by a second pass. *)
Lemma sanitizeText_not_idempotent :
  sanitizeText (str "[[a](b)](c)") = str "[a](c)"
  /\ sanitizeText (sanitizeText (str "[[a](b)](c)")) = str "a"
  /\ sanitizeText (str "#######  x") = str "# x"
  /\ sanitizeText (sanitizeText (str "#######  x")) = str "x"
  /\ ~ (forall x, sanitizeText (sanitizeText x) = sanitizeText x).
Proof.
  repeat split; try (vm_compute; reflexivity).
  intros H. specialize (H (str "[[a](b)](c)")). vm_compute in H. discriminate H.
Qed.

(** C9, amended. For every input whose sanitized text contains no [#]
    and no opening square bracket, sanitizing twice gives the same text as
    sanitizing once. *)
Theorem sanitizeText_idempotent (x : jsstring) :
  existsb (fun c => is_hash c || is_lbracket c) (sanitizeText x) = false ->
  sanitizeText (sanitizeText x) = sanitizeText x.
Proof.
  intros H. rewrite sanitizeText_twice.
  assert (Hh : free is_hash (sanitizeText x)).
  { apply existsb_free with (2 := H). intros c ->. reflexivity. }
  assert (Hl : free is_lbracket (sanitizeText x)).
  { apply existsb_free with (2 := H). intros c ->. apply orb_true_r. }
  unfold re_header at 1. rewrite replace_one_id by exact Hh.
  unfold re_link at 1. rewrite replace_one_id by exact Hl.
  unfold sanitizeText. apply trim_idempotent.
Qed.

Lemma sanitizeText_idempotent_witness :
  sanitizeText (sanitizeText (str "  **bold** <i>and</i> `code` "))
  = sanitizeText (str "  **bold** <i>and</i> `code` ").
Proof.
  apply (sanitizeText_idempotent (str "  **bold** <i>and</i> `code` ")).
  vm_compute. reflexivity.
Defined.

(** ** Heading markers *)

Lemma is_markup_cases (c : char) :
  is_markup c = true ->
  c = ch "<" \/ c = ch ">" \/ c = ch "*" \/ c = ch "`" \/ c = ch "#" \/ c = ch "[".
Proof.
  unfold is_markup, is_angle, is_star, is_tick, is_hash, is_lbracket, char_eqb.
  rewrite !orb_true_iff, !N.eqb_eq. tauto.
Qed.

Lemma space_not_markup (c : char) : is_space c = true -> is_markup c = false.
Proof.
  intros Hs. destruct (is_markup c) eqn:Hm; [| reflexivity].
  apply is_markup_cases in Hm.
  destruct Hm as [-> | [-> | [-> | [-> | [-> | ->]]]]]; discriminate Hs.
Qed.

Lemma markup_free (p : char -> bool) (s : jsstring) :
  (forall c, p c = true -> is_markup c = true) ->
  existsb is_markup s = false -> free p s.
Proof. intros Hp H. exact (existsb_free p is_markup s Hp H). Qed.

Lemma angle_markup c : is_angle c = true -> is_markup c = true.
Proof. unfold is_markup. now intros ->. Qed.

Lemma star_markup c : is_star c = true -> is_markup c = true.
Proof. unfold is_markup. intros ->. now rewrite orb_true_r. Qed.

Lemma tick_markup c : is_tick c = true -> is_markup c = true.
Proof. unfold is_markup. intros ->. now rewrite !orb_true_r. Qed.

Lemma hash_markup c : is_hash c = true -> is_markup c = true.
Proof. unfold is_markup. intros ->. now rewrite !orb_true_r. Qed.

Lemma lbracket_markup c : is_lbracket c = true -> is_markup c = true.
Proof. unfold is_markup. intros ->. now rewrite !orb_true_r. Qed.

(** After the first [#], up to [n] more and then a white space match. *)
Lemma upto_hashes (n j : nat) (ws : char) (post acc : jsstring) :
  (j <= n)%nat -> is_space ws = true ->
  upto_from n is_hash (fun _ => one is_space (fun _ => accept)) acc
    (repeat (ch "#") j ++ ws :: post)
  = Some ([], post).
Proof.
  intros Hj Hws.
  assert (Hh : is_hash ws = false).
  { apply space_not_markup in Hws. destruct (is_hash ws) eqn:E; [| reflexivity].
    apply hash_markup in E. congruence. }
  revert j acc Hj. induction n as [|n IH]; intros j acc Hj.
  - assert (j = 0)%nat as -> by lia. cbn [repeat app upto_from one].
    now rewrite Hws.
  - destruct j as [|j]; cbn [repeat app upto_from].
    + rewrite Hh. cbn [one]. now rewrite Hws.
    + change (is_hash (ch "#")) with true. cbv iota.
      rewrite IH by lia. reflexivity.
Qed.

Lemma header_run_removed (k : nat) (ws : char) (post : jsstring) :
  (1 <= k <= 6)%nat -> is_space ws = true -> free is_hash post ->
  replace re_header (lit []) (repeat (ch "#") k ++ ws :: post) = post.
Proof.
  intros Hk Hws Hpost.
  change (ws :: post) with ([ws] ++ post). rewrite app_assoc.
  rewrite replace_match with (g := []).
  - unfold re_header, lit. cbn [app]. now apply replace_one_id.
  - destruct k; [lia | discriminate].
  - rewrite <- app_assoc. cbn [app].
    destruct k as [|j]; [lia |]. cbn [repeat app].
    unfold re_header. cbn [one]. change (is_hash (ch "#")) with true. cbv iota.
    unfold upto. apply upto_hashes; [lia | exact Hws].
Qed.

(** *** The header pass on arbitrary text *)

Lemma is_hash_eq (c : char) : is_hash c = true -> c = ch "#".
Proof. unfold is_hash, char_eqb. apply N.eqb_eq. Qed.

(** More [#] than the quantifier can take: no match. *)
Lemma upto_hashes_too_many (n j : nat) (t acc : jsstring) :
  (n < j)%nat ->
  upto_from n is_hash (fun _ => one is_space (fun _ => accept)) acc
    (repeat (ch "#") j ++ t)
  = None.
Proof.
  revert j acc. induction n as [|n IH]; intros j acc Hj;
    (destruct j as [|j]; [lia |]); cbn [repeat app upto_from].
  - reflexivity.
  - change (is_hash (ch "#")) with true. cbv iota.
    rewrite IH by lia. reflexivity.
Qed.

(** The run of [#] ends at a character that is not white space: no
    match, however the quantifier backtracks. *)
Lemma upto_hashes_no_space (n j : nat) (d : char) (r acc : jsstring) :
  is_hash d = false -> is_space d = false ->
  upto_from n is_hash (fun _ => one is_space (fun _ => accept)) acc
    (repeat (ch "#") j ++ d :: r)
  = None.
Proof.
  intros Hh Hs. revert j acc. induction n as [|n IH]; intros j acc;
    destruct j as [|j]; cbn [repeat app upto_from one].
  - now rewrite Hs.
  - reflexivity.
  - rewrite Hh. cbn [one]. now rewrite Hs.
  - change (is_hash (ch "#")) with true. cbv iota. now rewrite IH.
Qed.

(** At a run of [j + 1] characters [#] that ends at [d], the header
    pattern matches exactly when the run is at most six long and [d] is
    white space; the match is the run and [d]. *)
Lemma re_header_run (j : nat) (d : char) (r : jsstring) :
  is_hash d = false ->
  re_header (repeat (ch "#") (S j) ++ d :: r)
  = if (j <=? 5)%nat && is_space d then Some ([], r) else None.
Proof.
  intros Hh. unfold re_header, upto. cbn [repeat app one].
  change (is_hash (ch "#")) with true. cbv iota.
  destruct (Nat.leb_spec j 5) as [Hj|Hj]; cbn [andb].
  - destruct (is_space d) eqn:Hs.
    + now apply upto_hashes.
    + now apply upto_hashes_no_space.
  - now apply upto_hashes_too_many.
Qed.

(** Every text is a run of [#] followed by a text that does not start
    with [#]. *)
Lemma hash_run_split (s : jsstring) :
  exists j t, s = repeat (ch "#") j ++ t
              /\ match t with [] => True | d :: _ => is_hash d = false end.
Proof.
  induction s as [|c s [j [t [-> Ht]]]].
  - exists 0%nat, []. now split.
  - destruct (is_hash c) eqn:Hc.
    + apply is_hash_eq in Hc. subst c. exists (S j), t. now split.
    + exists 0%nat, (c :: repeat (ch "#") j ++ t). now split.
Qed.

Lemma header_run_step (j : nat) (d : char) (r : jsstring) :
  is_hash d = false -> (j <=? 5)%nat && is_space d = true ->
  replace re_header (lit []) (repeat (ch "#") (S j) ++ d :: r)
  = replace re_header (lit []) r.
Proof.
  intros Hd Hc. change (d :: r) with ([d] ++ r). rewrite app_assoc.
  rewrite replace_match with (g := []); [reflexivity | discriminate |].
  rewrite <- app_assoc. cbn [app]. rewrite re_header_run by exact Hd.
  now rewrite Hc.
Qed.

Lemma header_run_skip (j : nat) (d : char) (r : jsstring) :
  is_hash d = false -> (j <=? 5)%nat && is_space d = false ->
  replace re_header (lit []) (repeat (ch "#") (S j) ++ d :: r)
  = ch "#" :: replace re_header (lit []) (repeat (ch "#") j ++ d :: r).
Proof.
  intros Hd Hc. change (repeat (ch "#") (S j)) with (ch "#" :: repeat (ch "#") j).
  cbn [app]. apply replace_no_match.
  change (ch "#" :: repeat (ch "#") j ++ d :: r)
    with (repeat (ch "#") (S j) ++ d :: r).
  rewrite re_header_run by exact Hd. now rewrite Hc.
Qed.

(** In front of a text that does not end with [#], a heading marker is
    removed and the scan goes on as if the text were cut there. *)
Lemma header_pass_cut (k : nat) (ws : char) (post : jsstring) :
  (1 <= k <= 6)%nat -> is_space ws = true ->
  forall (n : nat) (pre : jsstring),
    (List.length pre <= n)%nat ->
    (forall u, pre <> u ++ [ch "#"]) ->
    replace re_header (lit []) (pre ++ repeat (ch "#") k ++ ws :: post)
    = replace re_header (lit []) pre ++ replace re_header (lit []) post.
Proof.
  intros Hk Hws.
  assert (Hhw : is_hash ws = false).
  { apply space_not_markup in Hws. destruct (is_hash ws) eqn:E; [| reflexivity].
    apply hash_markup in E. congruence. }
  induction n as [|n IH]; intros pre Hlen Hend.
  - destruct pre; [| simpl in Hlen; lia]. cbn [app].
    change (ws :: post) with ([ws] ++ post). rewrite app_assoc.
    rewrite replace_match with (g := []); [reflexivity | |].
    + destruct k; [lia | discriminate].
    + rewrite <- app_assoc. cbn [app]. destruct k as [|j]; [lia |].
      rewrite re_header_run by exact Hhw. rewrite Hws.
      destruct (Nat.leb_spec j 5); [reflexivity | lia].
  - destruct (hash_run_split pre) as [j [t [Hpre Ht]]].
    destruct j as [|j].
    + (* the text does not start with a run *)
      cbn [repeat app] in Hpre. subst t.
      destruct pre as [|c r].
      * apply (IH []); [simpl; lia | exact Hend].
      * cbn [app]. rewrite !replace_no_match
          by (unfold re_header; now apply one_reject).
        cbn [app]. f_equal. apply IH; [simpl in Hlen; lia |].
        intros u Hu. apply (Hend (c :: u)). now rewrite Hu.
    + (* the text starts with a run of [S j] that ends at [d] *)
      destruct t as [|d r].
      * exfalso. apply (Hend (repeat (ch "#") j)).
        rewrite Hpre, app_nil_r. apply repeat_cons.
      * assert (Hr : forall u, r <> u ++ [ch "#"]).
        { intros u Hu. apply (Hend (repeat (ch "#") (S j) ++ d :: u)).
          rewrite Hpre, Hu, <- app_assoc. reflexivity. }
        assert (Hlr : (List.length r <= n)%nat).
        { rewrite Hpre, length_app in Hlen. simpl in Hlen. lia. }
        subst pre. rewrite <- app_assoc. cbn [app].
        destruct ((j <=? 5)%nat && is_space d) eqn:Hc.
        -- (* a match: the scan resumes after [d] *)
           rewrite !header_run_step by assumption. now apply IH.
        -- (* no match: the first [#] is copied *)
           rewrite !header_run_skip by assumption. cbn [app]. f_equal.
           change (d :: r ++ repeat (ch "#") k ++ ws :: post)
             with ((d :: r) ++ repeat (ch "#") k ++ ws :: post).
           rewrite app_assoc. apply IH.
           ++ rewrite length_app, repeat_length in Hlen |- *.
              cbn [List.length] in Hlen |- *. lia.
           ++ intros u Hu. apply (Hend (ch "#" :: u)).
              cbn [repeat app]. now rewrite Hu.
Qed.

(** C8 as stated fails: a [#] and a space in the middle of a line are
    removed. *)
Lemma header_marker_removed_mid_line :
  sanitizeText (str "a # b") = str "a b"
  /\ sanitizeText (str "a # b") <> str "a # b".
Proof. split; [vm_compute; reflexivity | vm_compute; discriminate]. Qed.

Lemma sanitizeText_marker_in_plain_text
  (pre post : jsstring) (k : nat) (ws : char) :
  (1 <= k <= 6)%nat ->
  is_space ws = true ->
  existsb is_markup pre = false ->
  existsb is_markup post = false ->
  sanitizeText (pre ++ repeat (ch "#") k ++ ws :: post) = trim (pre ++ post).
Proof.
  intros Hk Hws Hpre Hpost.
  assert (Hm := space_not_markup ws Hws).
  assert (Hall : forall p : char -> bool,
             (forall c, p c = true -> is_markup c = true) ->
             p (ch "#") = false ->
             free p (pre ++ repeat (ch "#") k ++ ws :: post)).
  { intros p Hp Hhash. unfold free. rewrite !Forall_app. repeat split.
    - now apply markup_free.
    - apply Forall_forall. intros c Hc. apply repeat_spec in Hc. now subst.
    - constructor; [| now apply markup_free].
      destruct (p ws) eqn:E; [| reflexivity]. apply Hp in E. congruence. }
  rewrite sanitizeText_late_passes.
  2: apply Hall; [exact angle_markup | reflexivity].
  2: apply Hall; [exact star_markup | reflexivity].
  2: apply Hall; [exact tick_markup | reflexivity].
  assert (E : replace re_header (lit []) (pre ++ repeat (ch "#") k ++ ws :: post)
              = pre ++ post).
  { unfold re_header at 1.
    rewrite replace_one_prefix by (apply markup_free; [exact hash_markup | exact Hpre]).
    f_equal. apply header_run_removed; [exact Hk | exact Hws |].
    apply markup_free; [exact hash_markup | exact Hpost]. }
  rewrite E. unfold re_link. rewrite replace_one_id; [reflexivity |].
  apply Forall_app. split; apply markup_free; auto using lbracket_markup.
Qed.

(** A text without the characters the sanitizer acts on is only trimmed. *)
Lemma sanitizeText_plain (s : jsstring) :
  existsb is_markup s = false -> sanitizeText s = trim s.
Proof.
  intros H. rewrite sanitizeText_late_passes.
  - unfold re_header. rewrite replace_one_id by (apply markup_free; auto using hash_markup).
    unfold re_link. rewrite replace_one_id by (apply markup_free; auto using lbracket_markup).
    reflexivity.
  - apply markup_free; auto using angle_markup.
  - apply markup_free; auto using star_markup.
  - apply markup_free; auto using tick_markup.
Qed.

(** C8, amended. The sanitizer removes a heading marker (one to six [#]
    followed by a white-space character) wherever it occurs, at the start
    of a line or in the middle of one.  The header pass deletes a marker
    that follows any text not ending in [#] and treats the text before and
    after it separately; and in a text otherwise free of the characters the
    sanitizer acts on, the sanitizer deletes the marker and trims the
    joined text. *)
Theorem header_marker_removed_anywhere
  (pre post : jsstring) (k : nat) (ws : char) :
  (1 <= k <= 6)%nat ->
  is_space ws = true ->
  (is_hash (last pre (ch " ")) = false ->
   replace re_header (lit []) (pre ++ repeat (ch "#") k ++ ws :: post)
   = replace re_header (lit []) pre ++ replace re_header (lit []) post)
  /\ (existsb is_markup pre = false ->
      existsb is_markup post = false ->
      sanitizeText (pre ++ repeat (ch "#") k ++ ws :: post) = trim (pre ++ post)).
Proof.
  intros Hk Hws. split.
  - intros Hlast.
    apply (header_pass_cut k ws post Hk Hws (List.length pre) pre (le_n _)).
    intros u ->. rewrite last_last in Hlast. discriminate Hlast.
  - now apply sanitizeText_marker_in_plain_text.
Qed.

Lemma header_marker_removed_anywhere_witness :
  replace re_header (lit [])
    (str "a #b [c] " ++ repeat (ch "#") 2 ++ ch " " :: str "# <title>")
  = replace re_header (lit []) (str "a #b [c] ")
    ++ replace re_header (lit []) (str "# <title>")
  /\ sanitizeText (str "see " ++ repeat (ch "#") 2 ++ ch " " :: str "title")
     = trim (str "see " ++ str "title").
Proof.
  destruct (header_marker_removed_anywhere (str "a #b [c] ") (str "# <title>")
              2%nat (ch " ")) as [H1 _]; [lia | reflexivity |].
  destruct (header_marker_removed_anywhere (str "see ") (str "title")
              2%nat (ch " ")) as [_ H2]; [lia | reflexivity |].
  split.
  - apply H1. reflexivity.
  - apply H2; reflexivity.
Defined.

(** ** Sanitization before dispatch *)

Lemma provider_dispatch_sanitized (this : VoiceProvider) (text text' : jsstring)
  (options : option VoiceOptions) :
  sanitizeText text' = sanitizeText text ->
  provider_dispatch this text' options = provider_dispatch this text options.
Proof.
  intros H. unfold provider_dispatch, MacOSVoiceProvider.speak_call,
    WindowsVoiceProvider.speak_call, AndroidVoiceProvider.speak_call,
    ElevenLabsVoiceProvider.speak_request.
  now rewrite H.
Qed.

Lemma provider_speak_sanitized (h : host) (this : VoiceProvider)
  (text text' : jsstring) (options : option VoiceOptions) :
  sanitizeText text' = sanitizeText text ->
  provider_speak h this text' options = provider_speak h this text options.
Proof.
  intros H. unfold provider_speak, MacOSVoiceProvider.speak,
    WindowsVoiceProvider.speak, AndroidVoiceProvider.speak,
    ElevenLabsVoiceProvider.speak, MacOSVoiceProvider.speak_call,
    WindowsVoiceProvider.speak_call, AndroidVoiceProvider.speak_call,
    ElevenLabsVoiceProvider.speak_request.
  now rewrite H.
Qed.

Lemma provider_dispatch_carries (this : VoiceProvider) (text : jsstring)
  (options : option VoiceOptions) (d : dispatch) :
  provider_dispatch this text options = Resolve d ->
  carries (class this) options d (sanitizeText text).
Proof.
  unfold provider_dispatch, carries. destruct (class this).
  - unfold MacOSVoiceProvider.speak_call.
    destruct (available this); cbn [negb bind]; [| discriminate].
    intros [= <-]. cbn [command args]. split; [reflexivity | apply last_last].
  - unfold WindowsVoiceProvider.speak_call.
    destruct (available this); cbn [negb bind]; [| discriminate].
    intros [= <-]. reflexivity.
  - unfold AndroidVoiceProvider.speak_call.
    destruct (available this); cbn [negb bind]; [| discriminate].
    intros [= <-]. cbn [command args]. split; [reflexivity | apply last_last].
  - unfold ElevenLabsVoiceProvider.speak_request.
    destruct (available this); [| discriminate].
    destruct (if_string (apiKey this)); cbn [bind]; [| discriminate].
    intros [= <-]. cbn [body]. eexists. reflexivity.
Qed.

(** C4. For every provider, text and options, what [speak] hands to the
    backend carries the sanitized text, and depends on the text only
    through its sanitized form: two texts with the same sanitized form
    give the same dispatch and, on every host, the same outcome.  The text
    handed over contains no angle bracket, asterisk or backtick. *)
Theorem speak_dispatches_sanitized_text (this : VoiceProvider)
  (text : jsstring) (options : option VoiceOptions) :
  (forall d, provider_dispatch this text options = Resolve d ->
             carries (class this) options d (sanitizeText text))
  /\ (forall text', sanitizeText text' = sanitizeText text ->
        provider_dispatch this text' options = provider_dispatch this text options
        /\ forall h, provider_speak h this text' options
                     = provider_speak h this text options)
  /\ free is_angle (sanitizeText text)
  /\ free is_star (sanitizeText text)
  /\ free is_tick (sanitizeText text).
Proof.
  split; [| split; [| split; [| split]]].
  - intros d. apply provider_dispatch_carries.
  - intros text' H. split.
    + now apply provider_dispatch_sanitized.
    + intros h. now apply provider_speak_sanitized.
  - apply sanitizeText_free_angle.
  - apply sanitizeText_free_star.
  - apply sanitizeText_free_tick.
Qed.

Lemma speak_dispatches_sanitized_text_witness :
  carries Windows None
    (Spawn (WindowsVoiceProvider.powershell
              (WindowsVoiceProvider.speak_script None (str "bhi/b"))))
    (sanitizeText (str "<b>hi</b>"))
  /\ provider_dispatch elevenlabs (str "**hi**") None
     = provider_dispatch elevenlabs (str "<hi>") None.
Proof.
  split.
  - apply (proj1 (speak_dispatches_sanitized_text windows (str "<b>hi</b>") None)).
    vm_compute. reflexivity.
  - destruct (proj1 (proj2 (speak_dispatches_sanitized_text elevenlabs
                              (str "<hi>") None))
                (str "**hi**")) as [H _].
    + vm_compute. reflexivity.
    + exact H.
Defined.

(** ** Histories of the manager *)

Lemma jsstring_eqb_eq (a b : jsstring) : JS.eqb a b = true <-> a = b.
Proof.
  revert b. induction a as [|x a IH]; intros [|y b]; simpl;
    try (split; [discriminate | discriminate]); [tauto |].
  unfold char_eqb. rewrite andb_true_iff, N.eqb_eq, IH.
  split; [intros [-> ->]; reflexivity | intros [= -> ->]; split; reflexivity].
Qed.

Lemma choose_listed (ps : list VoiceProvider) (p : VoiceProvider) :
  VoiceManager.choose ps = Some p -> In p ps.
Proof.
  unfold VoiceManager.choose.
  destruct (find _ ps) as [q|] eqn:Hf.
  - intros [= <-]. now apply find_some in Hf.
  - destruct ps as [|q ps']; [discriminate |]. intros [= <-]. now left.
Qed.

Lemma initialize_ok (detect : VoiceProvider -> detection) (m : VoiceManager.t) :
  manager_ok m -> manager_ok (VoiceManager.initialize detect m).
Proof.
  intros Hm. unfold VoiceManager.initialize.
  destruct (VoiceManager.initialized m) eqn:Hi; [exact Hm |].
  destruct Hm as [Hfresh _]. destruct (Hfresh Hi) as [Hps _].
  rewrite Hps, init_each_filter. cbn [app].
  split; [discriminate | split].
  - apply Forall_forall. intros p Hp. apply in_map_iff in Hp.
    destruct Hp as [q [<- Hq]]. apply filter_In in Hq. destruct Hq as [Hq _].
    unfold listed_ok, VoiceManager.object.
    cbn [VoiceManager.elevenLabsApiKey].
    unfold VoiceManager.created in Hq.
    destruct Hq as [<- | [<- | [<- | [<- | []]]]];
      [exists MacOS | exists Windows | exists Android | exists ElevenLabs];
      reflexivity.
  - cbn [VoiceManager.activeProvider VoiceManager.providers].
    intros p. apply choose_listed.
Qed.

Lemma ensure_initialized_ok (detect : VoiceProvider -> detection)
  (m : VoiceManager.t) :
  manager_ok m -> manager_ok (VoiceManager.ensure_initialized detect m).
Proof.
  intros Hm. unfold VoiceManager.ensure_initialized.
  destruct (negb (VoiceManager.initialized m)); [now apply initialize_ok | exact Hm].
Qed.

Lemma speak_state (detect : VoiceProvider -> detection) (h : host)
  (m : VoiceManager.t) (text : jsstring) (options : option VoiceOptions) :
  fst (VoiceManager.speak detect h m text options)
  = VoiceManager.ensure_initialized detect m.
Proof.
  unfold VoiceManager.speak.
  now destruct (VoiceManager.activeProvider (VoiceManager.ensure_initialized detect m)).
Qed.

Lemma getVoices_state (detect : VoiceProvider -> detection) (h : host)
  (m : VoiceManager.t) :
  fst (VoiceManager.getVoices detect h m)
  = VoiceManager.ensure_initialized detect m.
Proof.
  unfold VoiceManager.getVoices.
  now destruct (VoiceManager.activeProvider (VoiceManager.ensure_initialized detect m)).
Qed.

Lemma setProvider_ok (h : host) (m : VoiceManager.t) (providerName : jsstring) :
  manager_ok m -> manager_ok (fst (VoiceManager.setProvider h m providerName)).
Proof.
  intros Hm. unfold VoiceManager.setProvider.
  destruct (find _ (VoiceManager.providers m)) as [p|] eqn:Hf; [| exact Hm].
  destruct Hm as [Hfresh [Hall _]]. cbn [fst]. split; [| split].
  - cbn [VoiceManager.initialized VoiceManager.providers]. intros Hi.
    destruct (Hfresh Hi) as [Hps _]. rewrite Hps in Hf. discriminate Hf.
  - exact Hall.
  - cbn [VoiceManager.activeProvider VoiceManager.providers].
    intros q [= <-]. now apply find_some in Hf.
Qed.

Lemma after_call_ok (m : VoiceManager.t) (c : manager_call) :
  manager_ok m -> manager_ok (after_call m c).
Proof.
  intros Hm. destruct c; cbn [after_call].
  - now apply initialize_ok.
  - rewrite speak_state. now apply ensure_initialized_ok.
  - rewrite getVoices_state. now apply ensure_initialized_ok.
  - now apply setProvider_ok.
Qed.

Lemma after_calls_ok (cs : list manager_call) (m : VoiceManager.t) :
  manager_ok m -> manager_ok (after_calls m cs).
Proof.
  revert m. induction cs as [|c cs IH]; intros m Hm; [exact Hm |].
  cbn [after_calls fold_left]. apply IH. now apply after_call_ok.
Qed.

Lemma new_ok (key : option jsstring) : manager_ok (VoiceManager.new key).
Proof.
  split; [now split | split; [constructor | discriminate]].
Qed.

Lemma listed_available (m : VoiceManager.t) (p : VoiceProvider) :
  listed_ok m p -> available p = true /\ if_string (Some (name p)) = Some (name p).
Proof. intros [k ->]. now destruct k. Qed.

(** X1. In every state a manager reaches from its construction, whatever
    calls are made and whatever the host answers, the active provider (if
    any) is one of the listed providers, every listed provider is one of
    the four constructed objects with [available] true, and
    [getActiveProvider] answers the name of the active provider. *)
Theorem manager_state_invariant (key : option jsstring) (cs : list manager_call) :
  let m := after_calls (VoiceManager.new key) cs in
  manager_ok m
  /\ Forall (fun p => available p = true) (VoiceManager.getProviders m)
  /\ VoiceManager.getActiveProvider m
     = option_map name (VoiceManager.activeProvider m)
  /\ match VoiceManager.activeProvider m with
     | Some p => In p (VoiceManager.getProviders m) /\ available p = true
     | None => VoiceManager.isAvailable m = false
     end.
Proof.
  cbv zeta. assert (Hok := after_calls_ok cs _ (new_ok key)).
  set (m := after_calls (VoiceManager.new key) cs) in *.
  destruct Hok as [Hfresh [Hall Hact]].
  assert (Hav : Forall (fun p => available p = true) (VoiceManager.providers m)).
  { apply Forall_forall. intros p Hp.
    apply (proj1 (Forall_forall _ _) Hall) in Hp. now apply listed_available in Hp. }
  split; [exact (conj Hfresh (conj Hall Hact)) | split; [exact Hav |]].
  unfold VoiceManager.getActiveProvider, VoiceManager.isAvailable,
    VoiceManager.getProviders.
  destruct (VoiceManager.activeProvider m) as [p|] eqn:Hp; [| now split].
  assert (Hin := Hact p eq_refl).
  assert (Hl := proj1 (Forall_forall _ _) Hall p Hin).
  apply listed_available in Hl. destruct Hl as [Ha Hn].
  split; [exact Hn | now split].
Qed.

(** X2. Once a manager is initialized, no later call runs detection again
    or changes the list of providers, and only [setProvider] can change
    the active provider: calls of [initialize], [speak] and [getVoices],
    whether they succeed or fail, leave the manager as it is. *)
Theorem initialized_manager_is_stable (m : VoiceManager.t)
  (cs : list manager_call) :
  VoiceManager.initialized m = true ->
  VoiceManager.initialized (after_calls m cs) = true
  /\ VoiceManager.providers (after_calls m cs) = VoiceManager.providers m
  /\ (forallb keeps_active cs = true -> after_calls m cs = m).
Proof.
  revert m. induction cs as [|c cs IH]; intros m Hi; [now repeat split |].
  cbn [after_calls fold_left].
  assert (Hstep : VoiceManager.initialized (after_call m c) = true
                  /\ VoiceManager.providers (after_call m c) = VoiceManager.providers m
                  /\ (keeps_active c = true -> after_call m c = m)).
  { destruct c; cbn [after_call keeps_active].
    - unfold VoiceManager.initialize. rewrite Hi. now repeat split.
    - rewrite speak_state. unfold VoiceManager.ensure_initialized.
      rewrite Hi. now repeat split.
    - rewrite getVoices_state. unfold VoiceManager.ensure_initialized.
      rewrite Hi. now repeat split.
    - unfold VoiceManager.setProvider.
      destruct (find _ (VoiceManager.providers m)); cbn [fst];
        repeat split; try assumption; discriminate. }
  destruct Hstep as [Hi' [Hp' Hk']].
  destruct (IH _ Hi') as [H1 [H2 H3]].
  split; [exact H1 | split; [now rewrite <- Hp' |]].
  cbn [forallb]. intros Hk. apply andb_true_iff in Hk. destruct Hk as [Hc Hcs].
  fold (after_calls (after_call m c) cs). rewrite (H3 Hcs). now apply Hk'.
Qed.

Lemma initialized_manager_is_stable_witness :
  let m := VoiceManager.initialize (host_detect windows_host)
             (VoiceManager.new None) in
  after_calls m [ CallSpeak nothing_detected quiet_host (str "hello") None;
                  CallInitialize nothing_detected;
                  CallGetVoices nothing_detected quiet_host ] = m.
Proof.
  cbv zeta.
  apply (initialized_manager_is_stable
           (VoiceManager.initialize (host_detect windows_host) (VoiceManager.new None))
           [ CallSpeak nothing_detected quiet_host (str "hello") None;
             CallInitialize nothing_detected;
             CallGetVoices nothing_detected quiet_host ]);
    reflexivity.
Defined.

(** X3. [setProvider] with a name that matches no listed provider (names
    compared after [toLowerCase]) rejects with
    [Provider "<name>" not available] and leaves the manager unchanged; in
    particular it always rejects before the initialization. *)
Theorem setProvider_unknown_name (h : host) (m : VoiceManager.t)
  (providerName : jsstring) :
  (forall p, In p (VoiceManager.providers m) ->
             toLowerCase h (name p) <> toLowerCase h providerName) ->
  VoiceManager.setProvider h m providerName
  = (m, Reject (str "Provider " ++ dq ++ providerName ++ dq
                ++ str " not available")).
Proof.
  intros H. unfold VoiceManager.setProvider.
  destruct (find _ (VoiceManager.providers m)) as [p|] eqn:Hf; [| reflexivity].
  apply find_some in Hf. destruct Hf as [Hin Heq].
  apply jsstring_eqb_eq in Heq. now apply H in Hin.
Qed.

Lemma setProvider_unknown_name_witness :
  VoiceManager.setProvider quiet_host (VoiceManager.new None) (str "macOS")
  = (VoiceManager.new None,
     Reject (str "Provider " ++ dq ++ str "macOS" ++ dq ++ str " not available")).
Proof.
  apply (setProvider_unknown_name quiet_host (VoiceManager.new None) (str "macOS")).
  intros p [].
Defined.

Lemma find_first (A : Type) (f : A -> bool) (l : list A) (p : A) :
  find f l = Some p ->
  exists before after,
    l = before ++ p :: after /\ f p = true
    /\ Forall (fun q => f q = false) before.
Proof.
  induction l as [|x l IH]; cbn [find]; [discriminate |].
  destruct (f x) eqn:Hx.
  - intros [= <-]. exists [], l. now repeat split.
  - intros H. destruct (IH H) as [before [after [-> [Hp Hb]]]].
    exists (x :: before), after. repeat split; [assumption |].
    now constructor.
Qed.

(** X4. [setProvider] with a name that matches a listed provider resolves
    and makes active the first listed provider whose lower-cased name
    equals the lower-cased argument (no provider listed before it
    matches), whether or not the selection policy would have chosen it;
    the list of providers and the initialization flag are unchanged. *)
Theorem setProvider_known_name (h : host) (m : VoiceManager.t)
  (providerName : jsstring) (q : VoiceProvider) :
  In q (VoiceManager.providers m) ->
  toLowerCase h (name q) = toLowerCase h providerName ->
  exists p before after,
    VoiceManager.providers m = before ++ p :: after
    /\ Forall (fun x => toLowerCase h (name x) <> toLowerCase h providerName) before
    /\ toLowerCase h (name p) = toLowerCase h providerName
    /\ snd (VoiceManager.setProvider h m providerName) = Resolve tt
    /\ VoiceManager.activeProvider (fst (VoiceManager.setProvider h m providerName))
       = Some p
    /\ VoiceManager.providers (fst (VoiceManager.setProvider h m providerName))
       = VoiceManager.providers m
    /\ VoiceManager.initialized (fst (VoiceManager.setProvider h m providerName))
       = VoiceManager.initialized m.
Proof.
  intros Hin Heq. unfold VoiceManager.setProvider.
  destruct (find _ (VoiceManager.providers m)) as [p|] eqn:Hf.
  - destruct (find_first _ _ _ _ Hf) as [before [after [Hl [Hp Hb]]]].
    exists p, before, after. apply jsstring_eqb_eq in Hp.
    repeat split; try assumption.
    apply Forall_forall. intros x Hx.
    apply (proj1 (Forall_forall _ _) Hb) in Hx. intros E.
    apply jsstring_eqb_eq in E. congruence.
  - exfalso. apply (find_none _ _ Hf) in Hin.
    apply jsstring_eqb_eq in Heq. congruence.
Qed.

Lemma setProvider_known_name_witness :
  let m := VoiceManager.initialize (host_detect lowercasing_host)
             (VoiceManager.new (Some (str "sk-test"))) in
  exists p before after,
    VoiceManager.providers m = before ++ p :: after
    /\ Forall (fun x => toLowerCase lowercasing_host (name x)
                        <> toLowerCase lowercasing_host (str "ANDROID")) before
    /\ toLowerCase lowercasing_host (name p)
       = toLowerCase lowercasing_host (str "ANDROID")
    /\ snd (VoiceManager.setProvider lowercasing_host m (str "ANDROID")) = Resolve tt
    /\ VoiceManager.activeProvider
         (fst (VoiceManager.setProvider lowercasing_host m (str "ANDROID"))) = Some p
    /\ VoiceManager.providers
         (fst (VoiceManager.setProvider lowercasing_host m (str "ANDROID")))
       = VoiceManager.providers m
    /\ VoiceManager.initialized
         (fst (VoiceManager.setProvider lowercasing_host m (str "ANDROID")))
       = VoiceManager.initialized m.
Proof.
  cbv zeta.
  apply (setProvider_known_name lowercasing_host
           (VoiceManager.initialize (host_detect lowercasing_host)
              (VoiceManager.new (Some (str "sk-test"))))
           (str "ANDROID") android).
  - vm_compute. right. left. reflexivity.
  - reflexivity.
Defined.

(** X5. On no host are the macOS and the Windows provider both detected:
    the first needs [process.platform] to be [darwin], the second [win32].
    After [initialize] the manager lists at most three providers. *)
Theorem macos_windows_exclusive (h : host) (key : option jsstring) :
  let m := VoiceManager.initialize (host_detect h) (VoiceManager.new key) in
  (MacOSVoiceProvider.isAvailable h && WindowsVoiceProvider.isAvailable h = false)
  /\ (List.length (VoiceManager.getProviders m) <= 3)%nat.
Proof.
  cbv zeta.
  assert (Hx : MacOSVoiceProvider.isAvailable h && WindowsVoiceProvider.isAvailable h = false).
  { unfold MacOSVoiceProvider.isAvailable, WindowsVoiceProvider.isAvailable.
    destruct (JS.eqb (platform h) (str "darwin")) eqn:Hd; [| reflexivity].
    destruct (JS.eqb (platform h) (str "win32")) eqn:Hw;
      [| cbn [negb]; apply andb_false_r].
    apply jsstring_eqb_eq in Hd. apply jsstring_eqb_eq in Hw.
    rewrite Hd in Hw. discriminate Hw. }
  split; [exact Hx |].
  unfold VoiceManager.getProviders. rewrite initialize_providers.
  rewrite length_map. unfold VoiceManager.created, host_detect, provider_isAvailable.
  cbn [filter reports class MacOSVoiceProvider.new WindowsVoiceProvider.new
       AndroidVoiceProvider.new ElevenLabsVoiceProvider.new].
  destruct (MacOSVoiceProvider.isAvailable h);
    destruct (WindowsVoiceProvider.isAvailable h); try discriminate Hx;
    destruct (AndroidVoiceProvider.isAvailable h);
    destruct (ElevenLabsVoiceProvider.isAvailable _); cbn [List.length]; lia.
Qed.

(** ** The guards and outcomes of [speak] *)

(** X6. [speak] rejects at its guard, with the provider's own message and
    without spawning a process or issuing a request, exactly when the
    provider is not flagged available (for the cloud provider: or has no
    non-empty API key).  Otherwise it always reaches the dispatch: no text,
    not even one that sanitizes to the empty string, and no option value
    is rejected. *)
Theorem speak_guard (this : VoiceProvider) (text : jsstring)
  (options : option VoiceOptions) :
  if usable this
  then exists d, provider_dispatch this text options = Resolve d
  else provider_dispatch this text options = Reject (guard_message (class this))
       /\ forall h, provider_speak h this text options
                    = Reject (guard_message (class this)).
Proof.
  unfold usable, provider_dispatch, provider_speak, MacOSVoiceProvider.speak,
    WindowsVoiceProvider.speak, AndroidVoiceProvider.speak,
    ElevenLabsVoiceProvider.speak, MacOSVoiceProvider.speak_call,
    WindowsVoiceProvider.speak_call, AndroidVoiceProvider.speak_call,
    ElevenLabsVoiceProvider.speak_request.
  destruct (class this); destruct (available this); cbn [negb andb bind];
    try (eexists; reflexivity); try (split; reflexivity).
  destruct (if_string (apiKey this)); cbn [bind];
    [eexists; reflexivity | split; reflexivity].
Qed.

Ltac settle_exit :=
  split;
  [ split;
    [ let H := fresh in
      intros H; first [discriminate H | eexists; eexists; reflexivity]
    | let H := fresh in
      intros [? [? H]]; first [discriminate H | reflexivity] ]
  | let H := fresh in
    intros H; first [eexists; reflexivity | exfalso; eapply H; reflexivity] ].

(** X7. For the three native providers, once the process is spawned,
    [speak] resolves exactly when the process exits with code 0; a
    non-zero or missing exit code and a spawn error make it reject. *)
Theorem native_speak_outcome (h : host) (this : VoiceProvider)
  (text : jsstring) (options : option VoiceOptions) (c : spawn_call) :
  class this <> ElevenLabs ->
  provider_dispatch this text options = Resolve (Spawn c) ->
  (provider_speak h this text options = Resolve tt
   <-> exists out err, run h c = ProcExit (Some 0%Z) out err)
  /\ ((forall out err, run h c <> ProcExit (Some 0%Z) out err) ->
      exists e, provider_speak h this text options = Reject e).
Proof.
  intros Hc Hd. unfold provider_dispatch, provider_speak in *.
  destruct (class this); try congruence.
  - unfold MacOSVoiceProvider.speak.
    destruct (MacOSVoiceProvider.speak_call this text options) as [c'| |];
      cbn [bind] in *; try discriminate. injection Hd as ->.
    unfold MacOSVoiceProvider.speak_exit.
    destruct (run h c) as [e | [[| p | p] |] out err]; cbn [exit_ok]; settle_exit.
  - unfold WindowsVoiceProvider.speak.
    destruct (WindowsVoiceProvider.speak_call this text options) as [c'| |];
      cbn [bind] in *; try discriminate. injection Hd as ->.
    unfold WindowsVoiceProvider.speak_exit.
    destruct (run h c) as [e | [[| p | p] |] out err]; cbn [exit_ok]; settle_exit.
  - unfold AndroidVoiceProvider.speak.
    destruct (AndroidVoiceProvider.speak_call this text options) as [c'| |];
      cbn [bind] in *; try discriminate. injection Hd as ->.
    unfold AndroidVoiceProvider.speak_exit.
    destruct (run h c) as [e | [[| p | p] |] out err]; cbn [exit_ok]; settle_exit.
Qed.

Lemma native_speak_outcome_witness :
  provider_speak darwin_host macos (str "hello") None = Resolve tt
  <-> exists out err,
        run darwin_host {| command := str "say"; args := [Str (str "hello")] |}
        = ProcExit (Some 0%Z) out err.
Proof.
  apply (native_speak_outcome darwin_host macos (str "hello") None
           {| command := str "say"; args := [Str (str "hello")] |}).
  - discriminate.
  - reflexivity.
Defined.




(** X9. What a provider dispatches depends on the options only through
    the values its backend takes, and a falsy value (an empty voice, a rate
    or pitch of 0) counts as absent: the voice matters to all but the
    Android provider, the rate to the three native providers, the pitch to
    the Android provider alone, and the volume to none. *)
Theorem dispatch_depends_on_truthy_options (this : VoiceProvider)
  (text : jsstring) (o o' : option VoiceOptions) :
  (class this <> Android ->
   if_string (opt_voice o) = if_string (opt_voice o')) ->
  (class this <> ElevenLabs ->
   if_number (opt_rate o) = if_number (opt_rate o')) ->
  (class this = Android ->
   if_number (opt_pitch o) = if_number (opt_pitch o')) ->
  provider_dispatch this text o = provider_dispatch this text o'.
Proof.
  intros Hv Hr Hp. unfold provider_dispatch.
  destruct (class this).
  - unfold MacOSVoiceProvider.speak_call.
    now rewrite Hv, Hr by discriminate.
  - unfold WindowsVoiceProvider.speak_call, WindowsVoiceProvider.speak_script,
      WindowsVoiceProvider.voice_statement, WindowsVoiceProvider.rate_statement.
    now rewrite Hv, Hr by discriminate.
  - unfold AndroidVoiceProvider.speak_call.
    now rewrite Hr, Hp by (discriminate || reflexivity).
  - unfold ElevenLabsVoiceProvider.speak_request.
    now rewrite Hv by discriminate.
Qed.

Lemma dispatch_depends_on_truthy_options_witness :
  provider_dispatch windows (str "hello")
    (Some {| voice := Some []; rate := Some 0; pitch := Some 3; volume := Some 11 |})
  = provider_dispatch windows (str "hello") None.
Proof.
  apply (dispatch_depends_on_truthy_options windows (str "hello")
           (Some {| voice := Some []; rate := Some 0; pitch := Some 3;
                    volume := Some 11 |}) None).
  - intros _. reflexivity.
  - intros _. reflexivity.
  - intros H. discriminate H.
Defined.

(** ** Quote escaping of the Windows provider *)

Lemma escape_flat_map (s : jsstring) :
  replace WindowsVoiceProvider.re_dquote (lit (dq ++ dq)) s
  = flat_map escape_char s.
Proof.
  induction s as [|c r IH]; [reflexivity |].
  cbn [flat_map]. unfold escape_char at 1.
  destruct (char_eqb c 34%N) eqn:Hc.
  - change (c :: r) with ([c] ++ r).
    rewrite replace_match with (g := []).
    + unfold lit at 1. now rewrite IH.
    + discriminate.
    + unfold WindowsVoiceProvider.re_dquote. simpl. now rewrite Hc.
  - rewrite replace_no_match.
    + now rewrite IH.
    + unfold WindowsVoiceProvider.re_dquote. now apply one_reject.
Qed.

Lemma flat_map_escape_injective (s s' : jsstring) :
  flat_map escape_char s = flat_map escape_char s' -> s = s'.
Proof.
  revert s'. induction s as [|c r IH]; intros [|c' r']; cbn [flat_map].
  - reflexivity.
  - unfold escape_char. destruct (char_eqb c' 34%N); discriminate.
  - unfold escape_char. destruct (char_eqb c 34%N); discriminate.
  - unfold escape_char.
    destruct (char_eqb c 34%N) eqn:Hc; destruct (char_eqb c' 34%N) eqn:Hc';
      unfold char_eqb in *; cbn [app dq].
    + apply N.eqb_eq in Hc, Hc'. subst. intros [= H]. f_equal. now apply IH.
    + intros [= <- H]. discriminate Hc'.
    + intros [= -> H]. discriminate Hc.
    + intros [= -> H]. f_equal. now apply IH.
Qed.

(** X10. The Windows provider's escaping replaces every double quote of
    the sanitized text by two double quotes and leaves every other
    character as it is; so the escaped text has an even number of quotes
    in pairs, and two different texts never have the same escaped form. *)
Theorem windows_escape_doubles_quotes (s s' : jsstring) :
  replace WindowsVoiceProvider.re_dquote (lit (dq ++ dq)) s
  = flat_map escape_char s
  /\ (replace WindowsVoiceProvider.re_dquote (lit (dq ++ dq)) s
      = replace WindowsVoiceProvider.re_dquote (lit (dq ++ dq)) s' ->
      s = s').
Proof.
  split; [apply escape_flat_map |].
  rewrite !escape_flat_map. apply flat_map_escape_injective.
Qed.

Lemma windows_escape_doubles_quotes_witness :
  str "a" ++ dq = str "a" ++ dq.
Proof.
  apply (proj2 (windows_escape_doubles_quotes (str "a" ++ dq) (str "a" ++ dq))).
  reflexivity.
Defined.

(** ** The voice listing of the Windows provider *)

Lemma split_free (sep : char) (a : jsstring) :
  free (fun c => char_eqb c sep) a -> WindowsVoiceProvider.split sep a = [a].
Proof.
  induction 1 as [|c r Hc Hr IH]; [reflexivity |].
  cbn [WindowsVoiceProvider.split]. now rewrite Hc, IH.
Qed.

Lemma split_app_sep (sep : char) (a b : jsstring) :
  free (fun c => char_eqb c sep) a ->
  WindowsVoiceProvider.split sep (a ++ sep :: b)
  = a :: WindowsVoiceProvider.split sep b.
Proof.
  induction 1 as [|c r Hc Hr IH]; cbn [app WindowsVoiceProvider.split].
  - unfold char_eqb. now rewrite N.eqb_refl.
  - now rewrite Hc, IH.
Qed.

(** Splitting what [join] glued gives the parts back. *)
Lemma split_join (sep : char) (parts : list jsstring) :
  parts <> [] ->
  Forall (free (fun c => char_eqb c sep)) parts ->
  WindowsVoiceProvider.split sep (join sep parts) = parts.
Proof.
  intros Hne Hall. induction Hall as [|p ps Hp Hps IH]; [congruence |].
  destruct ps as [|q ps].
  - cbn [join]. now apply split_free.
  - change (join sep (p :: q :: ps)) with (p ++ sep :: join sep (q :: ps)).
    rewrite split_app_sep by exact Hp. f_equal. apply IH. discriminate.
Qed.

Lemma split_length (sep : char) (s : jsstring) :
  List.length (WindowsVoiceProvider.split sep s)
  = S (count_occ N.eq_dec s sep).
Proof.
  induction s as [|c r IH]; [reflexivity |].
  cbn [WindowsVoiceProvider.split count_occ]. unfold char_eqb.
  destruct (N.eq_dec c sep) as [->|Hne].
  - rewrite N.eqb_refl. cbn [List.length]. now rewrite IH.
  - apply N.eqb_neq in Hne. rewrite Hne.
    destruct (WindowsVoiceProvider.split sep r) as [|x xs]; [discriminate IH |].
    exact IH.
Qed.

Lemma field_free (sep : char) (f : jsstring) :
  (sep = WindowsVoiceProvider.bar \/ sep = 10%N) ->
  field_ok f -> free (fun c => char_eqb c sep) f.
Proof.
  intros Hs Hf. unfold field_ok, free in *.
  apply Forall_forall. intros c Hc.
  apply (proj1 (Forall_forall _ _) Hf) in Hc.
  apply orb_false_iff in Hc. destruct Hc as [H1 H2].
  destruct Hs as [-> | ->]; assumption.
Qed.

Lemma voice_line_free_lf (e : jsstring * jsstring * jsstring) :
  entry_ok e -> free (fun c => char_eqb c 10%N) (voice_line e).
Proof.
  destruct e as [[n l] g]. intros [Hn [Hl Hg]].
  unfold voice_line, free. cbn [join].
  rewrite !Forall_app. repeat split;
    try (apply (field_free 10%N); [now right | assumption]).
  - constructor; [reflexivity |]. rewrite Forall_app. split.
    + apply (field_free 10%N); [now right | assumption].
    + constructor; [reflexivity |].
      apply (field_free 10%N); [now right | assumption].
Qed.

Lemma voice_line_includes_bar (e : jsstring * jsstring * jsstring) :
  WindowsVoiceProvider.includes_bar (voice_line e) = true.
Proof.
  destruct e as [[n l] g]. unfold voice_line, WindowsVoiceProvider.includes_bar.
  cbn [join]. rewrite existsb_app. cbn [existsb].
  unfold char_eqb at 2. rewrite N.eqb_refl. cbn [orb]. apply orb_true_r.
Qed.

Lemma parse_voice_line (h : host) (e : jsstring * jsstring * jsstring) :
  entry_ok e ->
  WindowsVoiceProvider.parse_voice h (voice_line e) = Resolve (sapi_voice h e).
Proof.
  destruct e as [[n l] g]. intros [Hn [Hl Hg]].
  unfold WindowsVoiceProvider.parse_voice, voice_line.
  rewrite split_join.
  - reflexivity.
  - discriminate.
  - repeat constructor;
      apply (field_free WindowsVoiceProvider.bar); auto.
Qed.

Lemma map_voices_lines (h : host) (es : list (jsstring * jsstring * jsstring)) :
  Forall entry_ok es ->
  WindowsVoiceProvider.map_voices h (List.map voice_line es)
  = Resolve (List.map (sapi_voice h) es).
Proof.
  induction 1 as [|e es He Hes IH]; [reflexivity |].
  cbn [List.map WindowsVoiceProvider.map_voices].
  rewrite parse_voice_line by exact He. cbn [bind]. now rewrite IH.
Qed.

Lemma filter_all (A : Type) (f : A -> bool) (l : list A) :
  Forall (fun x => f x = true) l -> filter f l = l.
Proof.
  induction 1 as [|x l Hx Hl IH]; [reflexivity |].
  cbn [filter]. now rewrite Hx, IH.
Qed.

(** *** Trimming a framed text *)

Lemma trimStart_spaces (ws s : jsstring) :
  Forall (fun c => is_space c = true) ws -> trimStart (ws ++ s) = trimStart s.
Proof.
  induction 1 as [|c r Hc Hr IH]; [reflexivity |].
  cbn [app trimStart]. now rewrite Hc.
Qed.

Lemma trim_framed (ws1 ws2 body : jsstring) :
  Forall (fun c => is_space c = true) ws1 ->
  Forall (fun c => is_space c = true) ws2 ->
  headed body -> headed (rev body) ->
  trim (ws1 ++ body ++ ws2) = body.
Proof.
  intros H1 H2 Hb Hr. unfold trim, trimEnd.
  rewrite trimStart_spaces by exact H1.
  destruct body as [|c r].
  - cbn [app]. rewrite <- (app_nil_r ws2) at 1.
    rewrite trimStart_spaces by exact H2. reflexivity.
  - rewrite (trimStart_fixed ((c :: r) ++ ws2)) by exact Hb.
    rewrite rev_app_distr.
    rewrite trimStart_spaces by (now apply Forall_rev).
    rewrite (trimStart_fixed _ Hr). apply rev_involutive.
Qed.
Lemma getVoices_of_listing (h : host) (this : VoiceProvider)
  (es : list (jsstring * jsstring * jsstring)) (ws1 ws2 stderr : jsstring) :
  available this = true ->
  Forall entry_ok es ->
  headed (join 10%N (List.map voice_line es)) ->
  headed (rev (join 10%N (List.map voice_line es))) ->
  Forall (fun c => is_space c = true) ws1 ->
  Forall (fun c => is_space c = true) ws2 ->
  run h (WindowsVoiceProvider.powershell WindowsVoiceProvider.voices_script)
  = ProcExit (Some 0%Z) (ws1 ++ join 10%N (List.map voice_line es) ++ ws2) stderr ->
  WindowsVoiceProvider.getVoices h this = Resolve (List.map (sapi_voice h) es).
Proof.
  intros Ha Hes Hb Hr H1 H2 Hrun.
  unfold WindowsVoiceProvider.getVoices. rewrite Ha, Hrun. cbn [negb exit_ok].
  rewrite trim_framed by assumption. change (ch "010") with 10%N.
  destruct es as [|e es]; [reflexivity |].
  rewrite split_join.
  - rewrite filter_all.
    + now apply map_voices_lines.
    + apply Forall_forall. intros l Hl. apply in_map_iff in Hl.
      destruct Hl as [e' [<- _]]. apply voice_line_includes_bar.
  - discriminate.
  - apply Forall_forall. intros l Hl. apply in_map_iff in Hl.
    destruct Hl as [e' [<- He']]. apply voice_line_free_lf.
    revert e' He'. now apply Forall_forall.
Qed.

(** X11. When the listing subprocess exits with code 0 and prints one
    [Name|Culture|Gender] line per voice, separated by line feeds and
    possibly framed by white space, the Windows provider's [getVoices]
    resolves to one descriptor per line, in order: the name as id and
    name, the culture as language, the lower-cased gender, and quality
    [standard].  An output of white space only gives the empty list. *)
Theorem windows_getVoices_parses (h : host) (this : VoiceProvider)
  (es : list (jsstring * jsstring * jsstring)) (ws1 ws2 stderr : jsstring) :
  available this = true ->
  Forall entry_ok es ->
  headed (join 10%N (List.map voice_line es)) ->
  headed (rev (join 10%N (List.map voice_line es))) ->
  Forall (fun c => is_space c = true) ws1 ->
  Forall (fun c => is_space c = true) ws2 ->
  run h (WindowsVoiceProvider.powershell WindowsVoiceProvider.voices_script)
  = ProcExit (Some 0%Z) (ws1 ++ join 10%N (List.map voice_line es) ++ ws2) stderr ->
  WindowsVoiceProvider.getVoices h this = Resolve (List.map (sapi_voice h) es).
Proof.
  intros Ha Hes Hb Hr H1 H2 Hrun.
  now apply (getVoices_of_listing h this es ws1 ws2 stderr).
Qed.

Lemma windows_getVoices_parses_witness :
  WindowsVoiceProvider.getVoices
    (printing_host (str "Microsoft David|en-US|Male" ++ nl
                    ++ str "Microsoft Zira|en-US|Female" ++ nl))
    windows
  = Resolve (List.map (sapi_voice (printing_host []))
               [ (str "Microsoft David", str "en-US", str "Male");
                 (str "Microsoft Zira", str "en-US", str "Female") ]).
Proof.
  apply (windows_getVoices_parses
           (printing_host (str "Microsoft David|en-US|Male" ++ nl
                           ++ str "Microsoft Zira|en-US|Female" ++ nl))
           windows
           [ (str "Microsoft David", str "en-US", str "Male");
             (str "Microsoft Zira", str "en-US", str "Female") ]
           [] nl []).
  - reflexivity.
  - repeat constructor.
  - reflexivity.
  - reflexivity.
  - constructor.
  - repeat constructor.
  - reflexivity.
Defined.

(** *** Listings with carriage returns *)

Lemma headed_app (a t : jsstring) : a <> [] -> headed a -> headed (a ++ t).
Proof. destruct a; [congruence | now intros _]. Qed.

Lemma voice_line_with_cr (e : jsstring * jsstring * jsstring) :
  voice_line (with_cr e) = voice_line e ++ [13%N].
Proof.
  destruct e as [[n l] g]. unfold voice_line, with_cr. cbn [join].
  rewrite <- !app_assoc. cbn [app]. now rewrite <- !app_assoc.
Qed.

Lemma voice_line_headed (e : jsstring * jsstring * jsstring) :
  entry_trimmed e ->
  voice_line e <> [] /\ headed (voice_line e)
  /\ rev (voice_line e) <> [] /\ headed (rev (voice_line e)).
Proof.
  destruct e as [[n l] g]. intros [Hn Hg]. unfold voice_line. cbn [join].
  repeat split.
  - destruct n; discriminate.
  - destruct n; [reflexivity | exact Hn].
  - rewrite rev_app_distr. cbn [rev]. rewrite rev_app_distr. cbn [rev].
    destruct (rev g); discriminate.
  - rewrite rev_app_distr. cbn [rev]. rewrite rev_app_distr. cbn [rev].
    rewrite <- !app_assoc. destruct (rev g); [reflexivity | exact Hg].
Qed.

Lemma with_cr_ok (e : jsstring * jsstring * jsstring) :
  entry_ok e -> entry_ok (with_cr e).
Proof.
  destruct e as [[n l] g]. intros [Hn [Hl Hg]]. repeat split; try assumption.
  unfold field_ok, free in *. rewrite Forall_app. split; [exact Hg |].
  now constructor.
Qed.

Lemma with_cr_headed (e : jsstring * jsstring * jsstring) :
  entry_trimmed e -> voice_line (with_cr e) <> [] /\ headed (voice_line (with_cr e)).
Proof.
  intros He. destruct (voice_line_headed e He) as [H1 [H2 _]].
  rewrite voice_line_with_cr. split.
  - destruct (voice_line e); [congruence | discriminate].
  - now apply headed_app.
Qed.

Lemma crlf_entries_ok (es : list (jsstring * jsstring * jsstring)) :
  Forall entry_ok es -> Forall entry_ok (crlf_entries es).
Proof.
  induction 1 as [|e r He Hr IH]; [constructor |].
  destruct r as [|e2 r]; [now constructor |].
  change (crlf_entries (e :: e2 :: r)) with (with_cr e :: crlf_entries (e2 :: r)).
  constructor; [now apply with_cr_ok | exact IH].
Qed.

Lemma crlf_listing_body (es : list (jsstring * jsstring * jsstring)) :
  es <> [] ->
  crlf_listing es
  = join 10%N (List.map voice_line (crlf_entries es)) ++ [13%N; 10%N].
Proof.
  induction es as [|e r IH]; [congruence |]. intros _.
  destruct r as [|e2 r]; [cbn; now rewrite app_nil_r |].
  change (crlf_listing (e :: e2 :: r))
    with ((voice_line e ++ [13%N; 10%N]) ++ crlf_listing (e2 :: r)).
  rewrite IH by discriminate.
  change (crlf_entries (e :: e2 :: r)) with (with_cr e :: crlf_entries (e2 :: r)).
  destruct (crlf_entries (e2 :: r)) as [|e3 r3] eqn:Hc.
  - destruct r; discriminate Hc.
  - cbn [List.map]. 
    change (join 10%N (voice_line (with_cr e) :: voice_line e3 :: List.map voice_line r3))
      with (voice_line (with_cr e) ++ 10%N :: join 10%N (voice_line e3 :: List.map voice_line r3)).
    rewrite voice_line_with_cr. rewrite <- !app_assoc. reflexivity.
Qed.

Lemma crlf_body_headed (es : list (jsstring * jsstring * jsstring)) :
  es <> [] -> Forall entry_trimmed es ->
  let body := join 10%N (List.map voice_line (crlf_entries es)) in
  body <> [] /\ headed body /\ rev body <> [] /\ headed (rev body).
Proof.
  cbv zeta. intros Hne Hall. induction Hall as [|e r He Hr IH]; [congruence |].
  destruct r as [|e2 r].
  - cbn [crlf_entries List.map join]. now apply voice_line_headed.
  - change (crlf_entries (e :: e2 :: r)) with (with_cr e :: crlf_entries (e2 :: r)).
    destruct (IH ltac:(discriminate)) as [I1 [I2 [I3 I4]]].
    destruct (crlf_entries (e2 :: r)) as [|e3 r3] eqn:Hc; [now contradiction I1 |].
    cbn [List.map] in *.
    change (join 10%N (voice_line (with_cr e) :: voice_line e3 :: List.map voice_line r3))
      with (voice_line (with_cr e) ++ 10%N :: join 10%N (voice_line e3 :: List.map voice_line r3)).
    destruct (with_cr_headed e He) as [W1 W2].
    repeat split.
    + destruct (voice_line (with_cr e)); [congruence | discriminate].
    + now apply headed_app.
    + rewrite rev_app_distr. cbn [rev]. rewrite <- app_assoc.
      destruct (rev (join 10%N (voice_line e3 :: List.map voice_line r3)));
        [congruence | discriminate].
    + rewrite rev_app_distr. cbn [rev]. rewrite <- app_assoc.
      now apply headed_app.
Qed.

(** X26. When the listing subprocess ends its lines with carriage return
    and line feed, the Windows provider's [getVoices] keeps the carriage
    return in the gender of every voice but the last: only the line feed
    separates lines, and only the end of the whole output is trimmed. *)
Theorem windows_getVoices_crlf (h : host) (this : VoiceProvider)
  (es : list (jsstring * jsstring * jsstring)) (stderr : jsstring) :
  available this = true ->
  Forall entry_ok es ->
  Forall entry_trimmed es ->
  run h (WindowsVoiceProvider.powershell WindowsVoiceProvider.voices_script)
  = ProcExit (Some 0%Z) (crlf_listing es) stderr ->
  WindowsVoiceProvider.getVoices h this
  = Resolve (List.map (sapi_voice h) (crlf_entries es)).
Proof.
  intros Ha Hok Htr Hrun.
  destruct es as [|e r].
  - apply (getVoices_of_listing h this [] [] [] stderr); try assumption;
      solve [constructor | exact I].
  - assert (Hne : e :: r <> []) by discriminate.
    destruct (crlf_body_headed (e :: r) Hne Htr) as [_ [H2 [_ H4]]].
    apply (getVoices_of_listing h this (crlf_entries (e :: r)) [] [13%N; 10%N] stderr).
    + exact Ha.
    + now apply crlf_entries_ok.
    + exact H2.
    + exact H4.
    + constructor.
    + repeat constructor.
    + cbn [app]. now rewrite <- crlf_listing_body.
Qed.

Lemma windows_getVoices_crlf_witness :
  WindowsVoiceProvider.getVoices
    (printing_host (crlf_listing
                      [ (str "David", str "en-US", str "Male");
                        (str "Zira", str "en-US", str "Female") ]))
    windows
  = Resolve (List.map (sapi_voice (printing_host []))
               [ (str "David", str "en-US", str "Male" ++ [13%N]);
                 (str "Zira", str "en-US", str "Female") ]).
Proof.
  apply (windows_getVoices_crlf
           (printing_host (crlf_listing
                             [ (str "David", str "en-US", str "Male");
                               (str "Zira", str "en-US", str "Female") ]))
           windows
           [ (str "David", str "en-US", str "Male");
             (str "Zira", str "en-US", str "Female") ] []).
  - reflexivity.
  - repeat constructor.
  - repeat constructor.
  - reflexivity.
Defined.

Lemma parse_voice_settles (h : host) (l : jsstring) :
  (exists v, WindowsVoiceProvider.parse_voice h l = Resolve v)
  \/ WindowsVoiceProvider.parse_voice h l = Crash (str "TypeError").
Proof.
  unfold WindowsVoiceProvider.parse_voice.
  destruct (nth_error _ 2); [left; eexists; reflexivity | now right].
Qed.

Lemma parse_voice_one_bar (h : host) (l : jsstring) :
  bars l = 1%nat ->
  WindowsVoiceProvider.parse_voice h l = Crash (str "TypeError").
Proof.
  intros Hb. unfold WindowsVoiceProvider.parse_voice.
  assert (Hlen := split_length WindowsVoiceProvider.bar l).
  fold (bars l) in Hlen. rewrite Hb in Hlen.
  destruct (WindowsVoiceProvider.split WindowsVoiceProvider.bar l)
    as [|a [|b [|c r]]]; try discriminate Hlen. reflexivity.
Qed.

Lemma bars_includes (l : jsstring) :
  (1 <= bars l)%nat -> WindowsVoiceProvider.includes_bar l = true.
Proof.
  unfold bars, WindowsVoiceProvider.includes_bar. intros H.
  apply existsb_exists. exists WindowsVoiceProvider.bar. split.
  - apply (count_occ_In N.eq_dec). lia.
  - unfold char_eqb. apply N.eqb_refl.
Qed.

Lemma map_voices_crash (h : host) (ls : list jsstring) (l : jsstring) :
  In l ls ->
  WindowsVoiceProvider.parse_voice h l = Crash (str "TypeError") ->
  WindowsVoiceProvider.map_voices h ls = Crash (str "TypeError").
Proof.
  intros Hin Hl. induction ls as [|l0 r IH]; [destruct Hin |].
  cbn [WindowsVoiceProvider.map_voices].
  destruct (parse_voice_settles h l0) as [[v Hv] | Hc].
  - rewrite Hv. cbn [bind]. destruct Hin as [-> | Hin]; [congruence |].
    now rewrite (IH Hin).
  - now rewrite Hc.
Qed.

(** X12. When the listing subprocess exits with code 0 and one line of
    its trimmed output contains exactly one [|], the Windows provider's
    [getVoices] neither resolves nor rejects: reading the missing gender
    throws inside the exit listener. *)
Theorem windows_getVoices_missing_gender (h : host) (this : VoiceProvider)
  (stdout stderr line : jsstring) :
  available this = true ->
  run h (WindowsVoiceProvider.powershell WindowsVoiceProvider.voices_script)
  = ProcExit (Some 0%Z) stdout stderr ->
  In line (WindowsVoiceProvider.split 10%N (trim stdout)) ->
  bars line = 1%nat ->
  WindowsVoiceProvider.getVoices h this = Crash (str "TypeError").
Proof.
  intros Ha Hrun Hin Hb.
  unfold WindowsVoiceProvider.getVoices. rewrite Ha, Hrun. cbn [negb exit_ok].
  change (ch "010") with 10%N.
  apply map_voices_crash with (l := line).
  - apply filter_In. split; [exact Hin |]. apply bars_includes. lia.
  - now apply parse_voice_one_bar.
Qed.

Lemma windows_getVoices_missing_gender_witness :
  WindowsVoiceProvider.getVoices
    (printing_host (str "Microsoft David|en-US|Male" ++ nl ++ str "Zira|en-US"))
    windows
  = Crash (str "TypeError").
Proof.
  apply (windows_getVoices_missing_gender
           (printing_host (str "Microsoft David|en-US|Male" ++ nl ++ str "Zira|en-US"))
           windows
           (str "Microsoft David|en-US|Male" ++ nl ++ str "Zira|en-US") []
           (str "Zira|en-US")).
  - reflexivity.
  - reflexivity.
  - right. left. reflexivity.
  - reflexivity.
Defined.

(** ** More on the sanitizer *)

(** X13. A text that contains no angle bracket, asterisk, backtick, [#]
    or opening square bracket comes back from the sanitizer trimmed and
    otherwise unchanged. *)
Theorem sanitizeText_of_plain_text (s : jsstring) :
  existsb is_markup s = false -> sanitizeText s = trim s.
Proof. exact (sanitizeText_plain s). Qed.

Lemma sanitizeText_of_plain_text_witness :
  sanitizeText (str "  plain text (no markup) ") = trim (str "  plain text (no markup) ").
Proof.
  apply (sanitizeText_of_plain_text (str "  plain text (no markup) ")). reflexivity.
Defined.

(** X14. The sanitized text never starts and never ends with a
    white-space character. *)
Theorem sanitizeText_is_trimmed (x : jsstring) :
  headed (sanitizeText x) /\ headed (rev (sanitizeText x)).
Proof.
  unfold sanitizeText, trim. split.
  - apply trimEnd_headed, trimStart_headed.
  - unfold trimEnd. rewrite rev_involutive. apply trimStart_headed.
Qed.

(** *** Length *)

Lemma replace_from_length (re : regex) (repl : jsstring -> jsstring) :
  (forall s g rest, re s = Some (g, rest) ->
     (List.length (repl g) + List.length rest <= List.length s)%nat) ->
  forall s n,
    (List.length (replace_from re repl n s) <= List.length s - n)%nat.
Proof.
  intros Hre. induction s as [|c r IH]; intros n; [simpl; lia |].
  destruct n as [|n]; cbn [replace_from].
  - destruct (re (c :: r)) as [[g rest]|] eqn:Hm.
    + rewrite length_app. specialize (Hre _ _ _ Hm).
      specialize (IH (List.length r - List.length rest)%nat).
      cbn [List.length] in *. lia.
    + specialize (IH 0%nat). cbn [List.length]. lia.
  - specialize (IH n). cbn [List.length]. lia.
Qed.

Lemma replace_length (re : regex) (repl : jsstring -> jsstring) (s : jsstring) :
  (forall s g rest, re s = Some (g, rest) ->
     (List.length (repl g) + List.length rest <= List.length s)%nat) ->
  (List.length (replace re repl s) <= List.length s)%nat.
Proof.
  intros Hre. unfold replace.
  assert (H := replace_from_length re repl Hre s 0). lia.
Qed.

Lemma one_accept_shrinks (p : char -> bool) (s g rest : jsstring) :
  one p (fun _ => accept) s = Some (g, rest) ->
  (List.length (lit [] g) + List.length rest <= List.length s)%nat.
Proof.
  intros H. apply one_inv in H. destruct H as [c [r [-> [_ H]]]].
  injection H as <- <-. simpl. lia.
Qed.

Lemma re_bold_shrinks (s g rest : jsstring) :
  re_bold s = Some (g, rest) ->
  (List.length (lit [] g) + List.length rest <= List.length s)%nat.
Proof.
  unfold re_bold. intros H. do 2 invert_one H.
  injection H as <- <-. simpl. lia.
Qed.

Lemma re_header_shrinks (s g rest : jsstring) :
  re_header s = Some (g, rest) ->
  (List.length (lit [] g) + List.length rest <= List.length s)%nat.
Proof.
  unfold re_header, upto. intros H. invert_one H.
  apply upto_from_inv in H. destruct H as [pre [t [-> H]]].
  invert_one H. injection H as <- <-.
  cbn [lit List.length]. rewrite length_app. cbn [List.length]. lia.
Qed.

Lemma re_link_shrinks (s g rest : jsstring) :
  re_link s = Some (g, rest) ->
  (List.length (group1 g) + List.length rest <= List.length s)%nat.
Proof.
  unfold re_link, many. intros H.
  do 2 invert_one H. invert_many H. do 3 invert_one H. invert_many H.
  invert_one H. injection H as <- <-.
  unfold group1. cbn [List.length app]. rewrite !length_app.
  cbn [List.length]. rewrite !length_app. cbn [List.length]. lia.
Qed.

Lemma trimStart_length (s : jsstring) :
  (List.length (trimStart s) <= List.length s)%nat.
Proof.
  induction s as [|c r IH]; [reflexivity |]. cbn [trimStart].
  destruct (is_space c); cbn [List.length]; lia.
Qed.

Lemma trim_length (s : jsstring) :
  (List.length (trim s) <= List.length s)%nat.
Proof.
  unfold trim, trimEnd. rewrite length_rev.
  etransitivity; [apply trimStart_length |]. rewrite length_rev.
  apply trimStart_length.
Qed.

(** X15. The sanitizer never makes a text longer. *)
Theorem sanitizeText_never_longer (x : jsstring) :
  (List.length (sanitizeText x) <= List.length x)%nat.
Proof.
  unfold sanitizeText.
  etransitivity; [apply trim_length |].
  etransitivity; [apply replace_length, re_link_shrinks |].
  etransitivity; [apply replace_length, re_header_shrinks |].
  etransitivity; [apply replace_length; unfold re_tick; apply one_accept_shrinks |].
  etransitivity; [apply replace_length; unfold re_star; apply one_accept_shrinks |].
  etransitivity; [apply replace_length, re_bold_shrinks |].
  apply replace_length. unfold re_angle. apply one_accept_shrinks.
Qed.

(** *** The first four passes *)

Lemma filter_twice (f g : char -> bool) (s : jsstring) :
  filter f (filter g s) = filter (fun c => g c && f c) s.
Proof.
  induction s as [|c r IH]; [reflexivity |]. cbn [filter].
  destruct (g c); cbn [andb filter]; [destruct (f c) |]; now rewrite IH.
Qed.

(** Deleting the pairs of asterisks first does not change what deleting
    every asterisk leaves. *)
Lemma bold_pass_redundant (n : nat) (s : jsstring) :
  (List.length s <= n)%nat ->
  filter (fun c => negb (is_star c)) (replace re_bold (lit []) s)
  = filter (fun c => negb (is_star c)) s.
Proof.
  revert s. induction n as [|n IH]; intros s Hn.
  - destruct s; [reflexivity | simpl in Hn; lia].
  - destruct s as [|c r]; [reflexivity |].
    destruct (is_star c) eqn:Hc.
    + destruct r as [|d r'].
      * rewrite replace_no_match; [reflexivity |].
        unfold re_bold. cbn [one]. now rewrite Hc.
      * destruct (is_star d) eqn:Hd.
        -- change (c :: d :: r') with ([c; d] ++ r').
           rewrite replace_match with (g := []).
           ++ cbn [lit app filter]. rewrite Hc, Hd. cbn [negb].
              apply IH. simpl in Hn. lia.
           ++ discriminate.
           ++ unfold re_bold. cbn [app one]. now rewrite Hc, Hd.
        -- rewrite replace_no_match.
           ++ cbn [filter]. rewrite Hc. cbn [negb].
              apply IH. simpl in Hn. simpl. lia.
           ++ unfold re_bold. cbn [one]. now rewrite Hc, Hd.
    + rewrite replace_no_match by (unfold re_bold; now apply one_reject).
      cbn [filter]. rewrite Hc. cbn [negb]. f_equal.
      apply IH. simpl in Hn. lia.
Qed.

(** X16. The first four passes of the sanitizer together delete every
    angle bracket, asterisk and backtick and nothing else; the pass for
    pairs of asterisks changes nothing that the pass for single asterisks
    would not.  The sanitized text is the header pass, the link pass and
    the trim applied to the text without those characters. *)
Theorem sanitizeText_after_deletion (x : jsstring) :
  sanitizeText x
  = trim (replace re_link group1
            (replace re_header (lit [])
               (filter (fun c => negb (is_deleted c)) x))).
Proof.
  unfold sanitizeText. do 3 f_equal.
  unfold re_tick, re_star, re_angle. rewrite !replace_class.
  rewrite (bold_pass_redundant (List.length (filter (fun c => negb (is_angle c)) x)))
    by apply le_n.
  rewrite !filter_twice. apply filter_ext. intros c. unfold is_deleted.
  destruct (is_angle c), (is_star c), (is_tick c); reflexivity.
Qed.

(** *** Links *)

Lemma many_from_greedy (A : Type) (p : char -> bool)
  (k : jsstring -> jsstring -> option A) (xs t acc : jsstring) (x : A) :
  Forall (fun c => p c = true) xs ->
  match t with [] => True | c :: _ => p c = false end ->
  k (acc ++ xs) t = Some x ->
  many_from p k acc (xs ++ t) = Some x.
Proof.
  intros Hxs Ht. revert acc. induction Hxs as [|a xs Ha Hxs IH]; intros acc Hk.
  - rewrite app_nil_r in Hk. cbn [app]. destruct t as [|c r]; [exact Hk |].
    cbn [many_from]. now rewrite Ht.
  - cbn [app many_from]. rewrite Ha. rewrite IH; [reflexivity |].
    now rewrite <- app_assoc.
Qed.

Lemma re_link_matches (label url post : jsstring) :
  label <> [] -> url <> [] ->
  Forall (fun c => not_rbracket c = true) label ->
  Forall (fun c => not_rparen c = true) url ->
  re_link (link label url ++ post) = Some (label, post).
Proof.
  intros Hl Hu Hlabel Hurl.
  destruct label as [|c cs]; [congruence |].
  destruct url as [|d ds]; [congruence |].
  inversion Hlabel as [|? ? Hc Hcs]; subst.
  inversion Hurl as [|? ? Hd Hds]; subst.
  unfold link, re_link, many. cbn [app one].
  change (is_lbracket (ch "[")) with true. cbv iota. rewrite Hc.
  rewrite <- app_assoc. cbn [app].
  apply many_from_greedy; [exact Hcs | reflexivity |].
  cbn [app one]. change (is_rbracket (ch "]")) with true. cbv iota.
  change (is_lparen (ch "(")) with true. cbv iota. rewrite Hd.
  rewrite <- app_assoc. cbn [app].
  apply many_from_greedy; [exact Hds | reflexivity |].
  cbn [app one]. reflexivity.
Qed.

Lemma existsb_or_free (p q : char -> bool) (s : jsstring) :
  existsb (fun c => p c || q c) s = false -> free p s /\ free q s.
Proof.
  intros H. split.
  - apply existsb_free with (2 := H). intros c ->. reflexivity.
  - apply existsb_free with (2 := H). intros c ->. apply orb_true_r.
Qed.

(** X17. A markdown link is rewritten to its label: in a text otherwise
    free of the characters the sanitizer acts on, [[label](url)] with a
    non-empty label without closing bracket and a non-empty url without
    closing parenthesis is replaced by the label, and the result is
    trimmed. *)
Theorem sanitizeText_rewrites_link (pre post label url : jsstring) :
  existsb is_markup pre = false ->
  existsb is_markup post = false ->
  label <> [] ->
  url <> [] ->
  existsb (fun c => is_markup c || is_rbracket c) label = false ->
  existsb (fun c => is_markup c || is_rparen c) url = false ->
  sanitizeText (pre ++ link label url ++ post) = trim (pre ++ label ++ post).
Proof.
  intros Hpre Hpost Hl Hu Hlabel Hurl.
  apply existsb_or_free in Hlabel. destruct Hlabel as [Hlm Hlb].
  apply existsb_or_free in Hurl. destruct Hurl as [Hum Hup].
  assert (Hm : forall p : char -> bool,
             (forall c, p c = true -> is_markup c = true) ->
             forall s, free is_markup s -> free p s).
  { intros p Hp s Hs. apply Forall_forall. intros c Hc.
    apply (proj1 (Forall_forall _ _) Hs) in Hc.
    destruct (p c) eqn:E; [| reflexivity]. apply Hp in E. congruence. }
  assert (Hall : forall p : char -> bool,
             (forall c, p c = true -> is_markup c = true) ->
             p (ch "[") = false -> p (ch "]") = false ->
             p (ch "(") = false -> p (ch ")") = false ->
             free p (pre ++ link label url ++ post)).
  { intros p Hp H1 H2 H3 H4. unfold free, link.
    rewrite Forall_app. split; [now apply markup_free |].
    cbn [app]. constructor; [exact H1 |].
    rewrite <- app_assoc. rewrite Forall_app. split; [now apply Hm |].
    cbn [app]. constructor; [exact H2 |]. constructor; [exact H3 |].
    rewrite <- app_assoc. rewrite Forall_app. split; [now apply Hm |].
    cbn [app]. constructor; [exact H4 |]. now apply markup_free. }
  rewrite sanitizeText_late_passes.
  2: apply Hall; [exact angle_markup | reflexivity ..].
  2: apply Hall; [exact star_markup | reflexivity ..].
  2: apply Hall; [exact tick_markup | reflexivity ..].
  unfold re_header.
  rewrite replace_one_id by (apply Hall; [exact hash_markup | reflexivity ..]).
  assert (E : replace re_link group1 (pre ++ link label url ++ post)
              = pre ++ label ++ post).
  { unfold re_link at 1.
    rewrite replace_one_prefix by (apply markup_free; [exact lbracket_markup | exact Hpre]).
    f_equal. fold re_link.
    rewrite replace_match with (g := label).
    - unfold group1. f_equal. unfold re_link.
      apply replace_one_id. apply markup_free; [exact lbracket_markup | exact Hpost].
    - discriminate.
    - apply re_link_matches; try assumption.
      + apply Forall_forall. intros c Hc. unfold not_rbracket.
        now rewrite (proj1 (Forall_forall _ _) Hlb c Hc).
      + apply Forall_forall. intros c Hc. unfold not_rparen.
        now rewrite (proj1 (Forall_forall _ _) Hup c Hc). }
  now rewrite E.
Qed.

Lemma sanitizeText_rewrites_link_witness :
  sanitizeText (str "see " ++ link (str "the docs") (str "https://example.org/a?b=1")
                ++ str " for more ")
  = trim (str "see " ++ str "the docs" ++ str " for more ").
Proof.
  apply (sanitizeText_rewrites_link (str "see ") (str " for more ")
           (str "the docs") (str "https://example.org/a?b=1"));
    solve [reflexivity | discriminate].
Defined.

(** ** More on the numeric options *)

Lemma Math_round_ge (z : Z) (q : Q) :
  (z <= Math_round q)%Z <-> (inject_Z z - (1 # 2) <= q)%Q.
Proof.
  unfold Math_round. split.
  - intros H. rewrite Zle_Qle in H.
    assert (H' := Qfloor_le (q + (1 # 2))). lra.
  - intros H. rewrite <- (Qfloor_Z z). apply Qfloor_resp_le. lra.
Qed.

Lemma normalizeRate_bounds_mono (a b : Q) :
  (a <= b)%Q ->
  (WindowsVoiceProvider.normalizeRate a <= WindowsVoiceProvider.normalizeRate b)%Z.
Proof.
  intros H. unfold WindowsVoiceProvider.normalizeRate, Math_round.
  assert (Hf : (Qfloor ((a - 180) / 20 + (1 # 2))
                <= Qfloor ((b - 180) / 20 + (1 # 2)))%Z).
  { apply Qfloor_resp_le. unfold Qdiv. change (/ 20)%Q with (1 # 20)%Q. lra. }
  lia.
Qed.

(** X18. The rate normalization of the Windows provider is monotone: a
    faster rate in words per minute never gives a lower SAPI rate. *)
Theorem normalizeRate_monotone (wpm1 wpm2 : Q) :
  (wpm1 <= wpm2)%Q ->
  (WindowsVoiceProvider.normalizeRate wpm1
   <= WindowsVoiceProvider.normalizeRate wpm2)%Z.
Proof.
  intros H. unfold WindowsVoiceProvider.normalizeRate, Math_round.
  assert (Hf : (Qfloor ((wpm1 - 180) / 20 + (1 # 2))
                <= Qfloor ((wpm2 - 180) / 20 + (1 # 2)))%Z).
  { apply Qfloor_resp_le. unfold Qdiv. change (/ 20)%Q with (1 # 20)%Q. lra. }
  lia.
Qed.

Lemma normalizeRate_monotone_witness :
  (WindowsVoiceProvider.normalizeRate 150 <= WindowsVoiceProvider.normalizeRate 220)%Z.
Proof.
  apply (normalizeRate_monotone 150 220). discriminate.
Defined.

(** X19. The rate normalization of the Windows provider gives the
    upper bound 10 for every rate of at least 370 words per minute and at
    most 9 for every rate up to 369; it gives the lower bound -10 for every
    rate of -11 or less and at least -9 for every rate from -10 up, so a
    non-negative rate never reaches the lower bound. *)
Theorem normalizeRate_saturation (wpm : Q) :
  ((370 <= wpm)%Q -> WindowsVoiceProvider.normalizeRate wpm = 10%Z)
  /\ ((wpm <= 369)%Q -> (WindowsVoiceProvider.normalizeRate wpm <= 9)%Z)
  /\ ((wpm <= -11)%Q -> WindowsVoiceProvider.normalizeRate wpm = (-10)%Z)
  /\ ((-10 <= wpm)%Q -> (-9 <= WindowsVoiceProvider.normalizeRate wpm)%Z).
Proof.
  assert (H370 : WindowsVoiceProvider.normalizeRate 370 = 10%Z) by reflexivity.
  assert (H369 : WindowsVoiceProvider.normalizeRate 369 = 9%Z) by reflexivity.
  assert (H11 : WindowsVoiceProvider.normalizeRate (-11) = (-10)%Z) by reflexivity.
  assert (H10 : WindowsVoiceProvider.normalizeRate (-10) = (-9)%Z) by reflexivity.
  assert (Hr := normalizeRate_range wpm).
  repeat split.
  - intros H. apply normalizeRate_bounds_mono in H. lia.
  - intros H. apply normalizeRate_bounds_mono in H. lia.
  - intros H. apply normalizeRate_bounds_mono in H. lia.
  - intros H. apply normalizeRate_bounds_mono in H. lia.
Qed.

Lemma normalizeRate_saturation_witness :
  (-9 <= WindowsVoiceProvider.normalizeRate 1)%Z.
Proof.
  apply (proj2 (proj2 (proj2 (normalizeRate_saturation 1)))). discriminate.
Defined.

(** X20. For a supplied non-zero rate the Android provider passes [-r]
    with the rate divided by 175 when the rate lies between 17.5 and 350
    words per minute, with 0.1 when it is slower and with 2 when it is
    faster; for a supplied non-zero pitch it passes [-p] with the pitch
    itself between 0.1 and 2, with 0.1 below and with 2 above. *)
Theorem android_rate_conversion (text : jsstring) (options : option VoiceOptions) :
  (forall r, if_number (opt_rate options) = Some r ->
     exists q rest,
       AndroidVoiceProvider.speak_call android text options
       = Resolve {| command := str "termux-tts-speak";
                    args := Str (str "-r") :: NumToFixed 2 q :: rest |}
       /\ ((r <= 35 # 2)%Q -> (q == 1 # 10)%Q)
       /\ ((35 # 2 <= r)%Q -> (r <= 350)%Q -> (q == r / 175)%Q)
       /\ ((350 <= r)%Q -> (q == 2)%Q))
  /\ (forall p, if_number (opt_pitch options) = Some p ->
        exists q before,
          AndroidVoiceProvider.speak_call android text options
          = Resolve {| command := str "termux-tts-speak";
                       args := before ++ [Str (str "-p"); NumToFixed 2 q;
                                          Str (sanitizeText text)] |}
          /\ ((p <= 1 # 10)%Q -> (q == 1 # 10)%Q)
          /\ ((1 # 10 <= p)%Q -> (p <= 2)%Q -> (q == p)%Q)
          /\ ((2 <= p)%Q -> (q == 2)%Q)).
Proof.
  split.
  - intros r Hr. rewrite android_speak_call_args, Hr.
    eexists. eexists. split; [reflexivity |].
    assert (Hdiv : (r / 175 == r * (1 # 175))%Q) by reflexivity.
    destruct (clamp_tts_cases (r / 175)) as [Hlow [Hmid Hhigh]].
    repeat split.
    + intros H. apply Hlow. rewrite Hdiv. lra.
    + intros H1 H2. apply Hmid; rewrite Hdiv; lra.
    + intros H. apply Hhigh. rewrite Hdiv. lra.
  - intros p Hp. rewrite android_speak_call_args, Hp.
    exists (AndroidVoiceProvider.clamp_tts p),
      (match if_number (opt_rate options) with
       | Some r => [Str (str "-r");
                    NumToFixed 2 (AndroidVoiceProvider.clamp_tts (r / 175))]
       | None => []
       end).
    split; [reflexivity |]. apply clamp_tts_cases.
Qed.

Lemma android_rate_conversion_witness :
  exists q rest,
    AndroidVoiceProvider.speak_call android (str "hi") (with_rate 175)
    = Resolve {| command := str "termux-tts-speak";
                 args := Str (str "-r") :: NumToFixed 2 q :: rest |}
    /\ ((175 <= 35 # 2)%Q -> (q == 1 # 10)%Q)
    /\ ((35 # 2 <= 175)%Q -> (175 <= 350)%Q -> (q == 175 / 175)%Q)
    /\ ((350 <= 175)%Q -> (q == 2)%Q).
Proof.
  apply (proj1 (android_rate_conversion (str "hi") (with_rate 175)) 175%Q).
  reflexivity.
Defined.

(** ** The device registry *)

Section MapFacts.
Context {V : Type}.

Lemma jsstring_eqb_refl (k : jsstring) : JS.eqb k k = true.
Proof. now apply jsstring_eqb_eq. Qed.

Lemma jsstring_eqb_neq (a b : jsstring) : JS.eqb a b = false <-> a <> b.
Proof.
  split.
  - intros H E. apply jsstring_eqb_eq in E. congruence.
  - intros H. destruct (JS.eqb a b) eqn:E; [| reflexivity].
    apply jsstring_eqb_eq in E. contradiction.
Qed.

Lemma get_set_eq (k : jsstring) (v : V) (m : JSMap.t V) :
  JSMap.get k (JSMap.set k v m) = Some v.
Proof.
  induction m as [|[k' v'] r IH]; cbn [JSMap.set JSMap.get].
  - now rewrite jsstring_eqb_refl.
  - destruct (JS.eqb k' k) eqn:E; cbn [JSMap.get]; now rewrite E.
Qed.

Lemma get_set_neq (k k' : jsstring) (v : V) (m : JSMap.t V) :
  k' <> k -> JSMap.get k' (JSMap.set k v m) = JSMap.get k' m.
Proof.
  intros Hne. induction m as [|[k0 v0] r IH]; cbn [JSMap.set JSMap.get].
  - apply jsstring_eqb_neq in Hne.
    destruct (JS.eqb k k') eqn:E; [| reflexivity].
    apply jsstring_eqb_eq in E. subst. now rewrite jsstring_eqb_refl in Hne.
  - destruct (JS.eqb k0 k) eqn:E; cbn [JSMap.get].
    + apply jsstring_eqb_eq in E. subst k0.
      assert (JS.eqb k k' = false) as -> by (apply jsstring_eqb_neq; congruence).
      reflexivity.
    + destruct (JS.eqb k0 k'); [reflexivity | exact IH].
Qed.

Lemma get_delete_eq (k : jsstring) (m : JSMap.t V) :
  JSMap.get k (JSMap.delete k m) = None.
Proof.
  induction m as [|[k' v'] r IH]; [reflexivity |].
  unfold JSMap.delete in *. cbn [filter fst].
  destruct (JS.eqb k' k) eqn:E; cbn [negb]; [exact IH |].
  cbn [JSMap.get]. now rewrite E.
Qed.

Lemma get_delete_neq (k k' : jsstring) (m : JSMap.t V) :
  k' <> k -> JSMap.get k' (JSMap.delete k m) = JSMap.get k' m.
Proof.
  intros Hne. induction m as [|[k0 v0] r IH]; [reflexivity |].
  unfold JSMap.delete in *. cbn [filter fst JSMap.get].
  destruct (JS.eqb k0 k) eqn:E; cbn [negb JSMap.get].
  - apply jsstring_eqb_eq in E. subst k0.
    assert (JS.eqb k k' = false) as -> by (apply jsstring_eqb_neq; congruence).
    exact IH.
  - destruct (JS.eqb k0 k'); [reflexivity | exact IH].
Qed.

Lemma get_In (k : jsstring) (v : V) (m : JSMap.t V) :
  JSMap.get k m = Some v -> In (k, v) m.
Proof.
  induction m as [|[k' v'] r IH]; cbn [JSMap.get]; [discriminate |].
  destruct (JS.eqb k' k) eqn:E.
  - apply jsstring_eqb_eq in E. intros [= ->]. left. now subst.
  - intros H. right. now apply IH.
Qed.

Lemma In_get_some (k : jsstring) (v : V) (m : JSMap.t V) :
  In (k, v) m -> exists v', JSMap.get k m = Some v'.
Proof.
  induction m as [|[k' v'] r IH]; [intros [] |]. cbn [JSMap.get].
  destruct (JS.eqb k' k) eqn:E; [eexists; reflexivity |].
  intros [H | H]; [| now apply IH].
  injection H as -> ->. now rewrite jsstring_eqb_refl in E.
Qed.

Lemma In_get_unique (k : jsstring) (v : V) (m : JSMap.t V) :
  NoDup (JSMap.keys m) -> In (k, v) m -> JSMap.get k m = Some v.
Proof.
  induction m as [|[k' v'] r IH]; [intros _ [] |].
  cbn [JSMap.keys List.map fst JSMap.get]. intros Hnd Hin.
  inversion Hnd as [|? ? Hnotin Hnd']; subst.
  destruct Hin as [H | H].
  - injection H as -> ->. now rewrite jsstring_eqb_refl.
  - destruct (JS.eqb k' k) eqn:E; [| now apply IH].
    apply jsstring_eqb_eq in E. subst k'. exfalso. apply Hnotin.
    apply in_map_iff. now exists (k, v).
Qed.

Lemma In_set (k k' : jsstring) (v v' : V) (m : JSMap.t V) :
  In (k', v') (JSMap.set k v m) -> (k' = k /\ v' = v) \/ In (k', v') m.
Proof.
  induction m as [|[k0 v0] r IH]; cbn [JSMap.set].
  - intros [[= <- <-] | []]. now left.
  - destruct (JS.eqb k0 k) eqn:E.
    + apply jsstring_eqb_eq in E. subst k0.
      intros [[= <- <-] | H]; [now left | right; now right].
    + intros [H | H]; [right; now left |].
      destruct (IH H) as [H' | H']; [now left | right; now right].
Qed.

Lemma keys_set_In (k x : jsstring) (v : V) (m : JSMap.t V) :
  In x (JSMap.keys (JSMap.set k v m)) -> x = k \/ In x (JSMap.keys m).
Proof.
  induction m as [|[k0 v0] r IH]; cbn [JSMap.set JSMap.keys List.map fst].
  - intros [<- | []]. now left.
  - destruct (JS.eqb k0 k); cbn [List.map fst].
    + intros [<- | H]; right; [now left | now right].
    + intros [<- | H]; [right; now left |].
      destruct (IH H) as [-> | H']; [now left | right; now right].
Qed.

Lemma set_NoDup (k : jsstring) (v : V) (m : JSMap.t V) :
  NoDup (JSMap.keys m) -> NoDup (JSMap.keys (JSMap.set k v m)).
Proof.
  induction m as [|[k0 v0] r IH]; cbn [JSMap.set JSMap.keys List.map fst].
  - intros _. constructor; [intros [] | constructor].
  - intros Hnd. inversion Hnd as [|? ? Hnotin Hnd']; subst.
    destruct (JS.eqb k0 k) eqn:E; cbn [List.map fst].
    + now constructor.
    + constructor; [| now apply IH].
      intros Hin. apply keys_set_In in Hin. destruct Hin as [-> | Hin].
      * now rewrite jsstring_eqb_refl in E.
      * contradiction.
Qed.
End MapFacts.

Section RegistryFacts.
Import DeviceAuthManager.

Lemma find_device_some (devices : JSMap.t Device) (token : jsstring)
  (entries : list (jsstring * jsstring)) (fp : jsstring) (d : Device) :
  find_device devices token entries = Some (fp, d) ->
  In (fp, token) entries /\ JSMap.get fp devices = Some d /\ trusted d = true.
Proof.
  induction entries as [|[fp' tok'] r IH]; cbn [find_device]; [discriminate |].
  destruct (JS.eqb tok' token) eqn:E.
  - apply jsstring_eqb_eq in E. subst tok'.
    destruct (JSMap.get fp' devices) as [d'|] eqn:Hg.
    + destruct (trusted d') eqn:Ht.
      * intros [= -> ->]. now repeat split; [left | |].
      * intros H. destruct (IH H) as [H1 H2]. split; [now right | exact H2].
    + intros H. destruct (IH H) as [H1 H2]. split; [now right | exact H2].
  - intros H. destruct (IH H) as [H1 H2]. split; [now right | exact H2].
Qed.

Lemma find_device_none (devices : JSMap.t Device) (token : jsstring)
  (entries : list (jsstring * jsstring)) :
  find_device devices token entries = None ->
  forall fp d, In (fp, token) entries ->
    JSMap.get fp devices = Some d -> trusted d = false.
Proof.
  induction entries as [|[fp' tok'] r IH]; cbn [find_device]; [intros _ ? ? [] |].
  intros H fp d [Hin | Hin] Hg.
  - injection Hin as -> ->. rewrite jsstring_eqb_refl, Hg in H.
    destruct (trusted d); [discriminate H | reflexivity].
  - destruct (JS.eqb tok' token); [| now apply (IH H fp)].
    destruct (JSMap.get fp' devices) as [d'|]; [| now apply (IH H fp)].
    destruct (trusted d'); [discriminate H | now apply (IH H fp)].
Qed.

Lemma registry_new_ok : registry_ok DeviceAuthManager.new.
Proof.
  split; [constructor | split].
  - intros fp d H. discriminate H.
  - intros fp. split; intros [x H]; [discriminate H | destruct H as [H _]; discriminate H].
Qed.

Lemma register_ok (e : environment) (s : DeviceAuthManager.t)
  (name type platform : jsstring) :
  registry_ok s -> registry_ok (fst (registerDevice e s name type platform)).
Proof.
  intros [Hnd [Hfp Hiff]]. unfold registerDevice. cbn [fst].
  set (fp := generateFingerprint e name type platform).
  split; [| split]; cbn [trustedDevices deviceTokens].
  - now apply set_NoDup.
  - intros fp' d. destruct (JS.eqb fp' fp) eqn:E.
    + apply jsstring_eqb_eq in E. subst fp'. rewrite get_set_eq.
      intros [= <-]. reflexivity.
    + apply jsstring_eqb_neq in E. rewrite get_set_neq by exact E. apply Hfp.
  - intros fp'. destruct (JS.eqb fp' fp) eqn:E.
    + apply jsstring_eqb_eq in E. subst fp'. rewrite !get_set_eq.
      split; intros _; eexists; [split |]; reflexivity.
    + apply jsstring_eqb_neq in E. rewrite !get_set_neq by exact E. apply Hiff.
Qed.

Lemma verify_ok (now : Z) (s : DeviceAuthManager.t) (token : jsstring) :
  registry_ok s -> registry_ok (fst (verifyDevice now s token)).
Proof.
  intros Hs. unfold verifyDevice.
  destruct (find_device _ _ _) as [[fp d]|] eqn:Hf; [| exact Hs].
  apply find_device_some in Hf. destruct Hf as [_ [Hg Ht]].
  destruct Hs as [Hnd [Hfp Hiff]]. cbn [fst].
  split; [| split]; cbn [trustedDevices deviceTokens].
  - now apply set_NoDup.
  - intros fp' d'. destruct (JS.eqb fp' fp) eqn:E.
    + apply jsstring_eqb_eq in E. subst fp'. rewrite get_set_eq.
      intros [= <-]. cbn [fingerprint seen_at]. now apply Hfp.
    + apply jsstring_eqb_neq in E. rewrite get_set_neq by exact E. apply Hfp.
  - intros fp'. rewrite Hiff. destruct (JS.eqb fp' fp) eqn:E.
    + apply jsstring_eqb_eq in E. subst fp'. rewrite get_set_eq, Hg.
      split; intros _; eexists; (split; [reflexivity | exact Ht]).
    + apply jsstring_eqb_neq in E. now rewrite get_set_neq by exact E.
Qed.

Lemma revoke_ok (s : DeviceAuthManager.t) (fp : jsstring) :
  registry_ok s -> registry_ok (fst (revokeDevice s fp)).
Proof.
  intros Hs. unfold revokeDevice.
  destruct (JSMap.get fp (trustedDevices s)) as [d|] eqn:Hg; [| exact Hs].
  destruct Hs as [Hnd [Hfp Hiff]]. cbn [fst].
  split; [| split]; cbn [trustedDevices deviceTokens].
  - now apply set_NoDup.
  - intros fp' d'. destruct (JS.eqb fp' fp) eqn:E.
    + apply jsstring_eqb_eq in E. subst fp'. rewrite get_set_eq.
      intros [= <-]. cbn [fingerprint distrusted]. now apply Hfp.
    + apply jsstring_eqb_neq in E. rewrite get_set_neq by exact E. apply Hfp.
  - intros fp'. destruct (JS.eqb fp' fp) eqn:E.
    + apply jsstring_eqb_eq in E. subst fp'. rewrite get_delete_eq, get_set_eq.
      split; [intros [x H]; discriminate H |].
      intros [d' [[= <-] H]]. discriminate H.
    + apply jsstring_eqb_neq in E.
      rewrite get_delete_neq, get_set_neq by exact E. apply Hiff.
Qed.

Lemma registry_after_calls_ok (cs : list call) : registry_ok (after_calls cs).
Proof.
  unfold after_calls. generalize registry_new_ok.
  generalize DeviceAuthManager.new as s.
  induction cs as [|c cs IH]; intros s Hs; [exact Hs |].
  cbn [fold_left]. apply IH. destruct c; cbn [DeviceAuthManager.after_call].
  - now apply register_ok.
  - now apply verify_ok.
  - now apply revoke_ok.
Qed.

(** X21. In every state the registry reaches from its construction, a
    fingerprint holds a token exactly when its device is stored and
    trusted, every device is stored under its own fingerprint, and
    [getTrustedDevices] lists exactly the stored devices that hold a
    token. *)
Theorem registry_invariant (cs : list call) (d : Device) :
  registry_ok (after_calls cs)
  /\ (In d (getTrustedDevices (after_calls cs))
      <-> getDevice (after_calls cs) (fingerprint d) = Some d
          /\ exists token,
               JSMap.get (fingerprint d) (deviceTokens (after_calls cs))
               = Some token).
Proof.
  assert (Hok := registry_after_calls_ok cs).
  split; [exact Hok |].
  destruct Hok as [Hnd [Hfp Hiff]].
  unfold getTrustedDevices, getDevice, JSMap.values. rewrite filter_In, in_map_iff.
  split.
  - intros [[[k d'] [Hd Hin]] Ht]. cbn [snd] in Hd. subst d'.
    apply (In_get_unique _ _ _ Hnd) in Hin.
    assert (Hk := Hfp _ _ Hin). subst k.
    split; [exact Hin |]. apply Hiff. now exists d.
  - intros [Hg Htok]. apply Hiff in Htok. destruct Htok as [d' [Hg' Ht]].
    assert (d' = d) by congruence. subst d'.
    split; [| exact Ht]. exists (fingerprint d, d). split; [reflexivity |].
    now apply get_In.
Qed.

(** X22. In every reachable state of the registry, [verifyDevice]
    answers a device exactly when the token is held for some fingerprint;
    the device answered is trusted, holds that token, has its [lastSeen]
    set to the time of the call, and is what [getDevice] answers
    afterwards. *)
Theorem verifyDevice_iff_issued (cs : list call) (now : Z) (token : jsstring) :
  (snd (verifyDevice now (after_calls cs) token) = None
   <-> ~ issued (after_calls cs) token)
  /\ (forall d, snd (verifyDevice now (after_calls cs) token) = Some d ->
        trusted d = true /\ lastSeen d = now
        /\ In (fingerprint d, token) (deviceTokens (after_calls cs))
        /\ getDevice (fst (verifyDevice now (after_calls cs) token))
             (fingerprint d) = Some d).
Proof.
  assert (Hok := registry_after_calls_ok cs).
  set (s := after_calls cs) in *. destruct Hok as [Hnd [Hfp Hiff]].
  unfold verifyDevice, issued.
  destruct (find_device _ _ _) as [[fp d0]|] eqn:Hf; cbn [snd fst].
  - apply find_device_some in Hf. destruct Hf as [Hin [Hg Ht]].
    split.
    + split; [discriminate |]. intros H. exfalso. apply H. now exists fp.
    + intros d [= <-]. cbn [trusted lastSeen fingerprint seen_at].
      assert (Hk := Hfp _ _ Hg). rewrite Hk.
      repeat split; try assumption.
      unfold getDevice. cbn [trustedDevices]. apply get_set_eq.
  - split; [| discriminate].
    split; [| reflexivity]. intros _ [fp Hin].
    destruct (In_get_some _ _ _ Hin) as [tok' Hg].
    assert (Hex : exists t, JSMap.get fp (deviceTokens s) = Some t) by now exists tok'.
    apply Hiff in Hex. destruct Hex as [d [Hd Ht]].
    assert (Hfalse := find_device_none _ _ _ Hf fp d Hin Hd). congruence.
Qed.

(** X23. A token just issued by [registerDevice] verifies: if no other
    fingerprint holds the same token, [verifyDevice] answers the device
    just registered, with its [lastSeen] set to the time of the
    verification. *)
Theorem register_then_verify (e : environment) (s : DeviceAuthManager.t)
  (name type platform : jsstring) (now : Z) :
  let r := registerDevice e s name type platform in
  (forall fp, In (fp, snd (snd r)) (deviceTokens s) ->
              fp = fingerprint (fst (snd r))) ->
  snd (verifyDevice now (fst r) (snd (snd r))) = Some (seen_at now (fst (snd r))).
Proof.
  cbv zeta. unfold registerDevice. cbn [fst snd fingerprint].
  set (fp := generateFingerprint e name type platform).
  set (tok := generateDeviceToken e fp).
  set (dev := {| dev_id := generateDeviceId e; dev_name := name;
                 dev_type := type; dev_platform := platform;
                 fingerprint := fp; lastSeen := now_lastSeen e;
                 trusted := true |}).
  intros Huniq. unfold verifyDevice. cbn [trustedDevices deviceTokens].
  destruct (find_device _ _ _) as [[fp' d]|] eqn:Hf; cbn [snd].
  - apply find_device_some in Hf. destruct Hf as [Hin [Hg _]].
    assert (fp' = fp) as ->.
    { apply In_set in Hin. destruct Hin as [[H _] | H]; [exact H | now apply Huniq]. }
    rewrite get_set_eq in Hg. now injection Hg as <-.
  - exfalso.
    assert (Hin : In (fp, tok) (JSMap.set fp tok (deviceTokens s))).
    { apply get_In, get_set_eq. }
    assert (Hg : JSMap.get fp (JSMap.set fp dev (trustedDevices s)) = Some dev)
      by apply get_set_eq.
    assert (H := find_device_none _ _ _ Hf fp dev Hin Hg). discriminate H.
Qed.

Lemma register_then_verify_witness :
  snd (verifyDevice 2000
         (fst (registerDevice (sample_environment 1000) DeviceAuthManager.new
                 (str "phone") (str "mobile") (str "android")))
         (snd (snd (registerDevice (sample_environment 1000) DeviceAuthManager.new
                      (str "phone") (str "mobile") (str "android")))))
  = Some (seen_at 2000
            (fst (snd (registerDevice (sample_environment 1000) DeviceAuthManager.new
                         (str "phone") (str "mobile") (str "android"))))).
Proof.
  apply (register_then_verify (sample_environment 1000) DeviceAuthManager.new
           (str "phone") (str "mobile") (str "android") 2000).
  intros fp [].
Defined.

Lemma find_device_absent (devices : JSMap.t Device) (token : jsstring)
  (entries : list (jsstring * jsstring)) :
  (forall fp, ~ In (fp, token) entries) ->
  find_device devices token entries = None.
Proof.
  intros H. destruct (find_device devices token entries) as [[fp d]|] eqn:Hf;
    [| reflexivity].
  apply find_device_some in Hf. destruct Hf as [Hin _]. now apply H in Hin.
Qed.

(** X24. [revokeDevice] answers [false] and changes nothing for a
    fingerprint that was never registered.  For a stored device it answers
    [true] (also when the device was revoked before), marks the device as
    not trusted, removes its token and drops it from [getTrustedDevices];
    a token held by no other fingerprint no longer verifies. *)
Theorem revokeDevice_effect (s : DeviceAuthManager.t) (fp : jsstring) :
  match getDevice s fp with
  | None => revokeDevice s fp = (s, false)
  | Some d =>
      let s' := fst (revokeDevice s fp) in
      snd (revokeDevice s fp) = true
      /\ getDevice s' fp = Some (distrusted d)
      /\ JSMap.get fp (deviceTokens s') = None
      /\ snd (revokeDevice s' fp) = true
      /\ (forall now token,
            (forall fp', In (fp', token) (deviceTokens s) -> fp' = fp) ->
            snd (verifyDevice now s' token) = None)
  end.
Proof.
  unfold getDevice, revokeDevice.
  destruct (JSMap.get fp (trustedDevices s)) as [d|] eqn:Hg; [| reflexivity].
  cbv zeta. cbn [fst snd trustedDevices deviceTokens].
  rewrite get_set_eq. cbn [snd].
  repeat split; try apply get_set_eq; try apply get_delete_eq.
  intros now token Huniq. unfold verifyDevice. cbn [trustedDevices deviceTokens].
  rewrite find_device_absent; [reflexivity |].
  intros fp' Hin. unfold JSMap.delete in Hin. apply filter_In in Hin.
  destruct Hin as [Hin Hne]. cbn [fst] in Hne.
  apply Huniq in Hin. subst fp'. now rewrite jsstring_eqb_refl in Hne.
Qed.

Lemma revokeDevice_effect_witness :
  let s := fst (registerDevice (sample_environment 1000) DeviceAuthManager.new
                  (str "phone") (str "mobile") (str "android")) in
  let token := snd (snd (registerDevice (sample_environment 1000)
                           DeviceAuthManager.new
                           (str "phone") (str "mobile") (str "android"))) in
  snd (verifyDevice 2000 (fst (revokeDevice s (str "phone|mobile|android|1000")))
         token) = None.
Proof.
  cbv zeta.
  assert (H := revokeDevice_effect
                 (fst (registerDevice (sample_environment 1000)
                         DeviceAuthManager.new
                         (str "phone") (str "mobile") (str "android")))
                 (str "phone|mobile|android|1000")).
  cbv beta iota zeta delta [getDevice] in H.
  change (JSMap.get (str "phone|mobile|android|1000")
            (trustedDevices
               (fst (registerDevice (sample_environment 1000)
                       DeviceAuthManager.new
                       (str "phone") (str "mobile") (str "android")))))
    with (Some (fst (snd (registerDevice (sample_environment 1000)
                            DeviceAuthManager.new
                            (str "phone") (str "mobile") (str "android"))))) in H.
  cbv beta iota in H.
  destruct H as [_ [_ [_ [_ H]]]]. apply H.
  intros fp' [Hin | []]. now injection Hin as <-.
Defined.

End RegistryFacts.

(** ** Lazy initialization *)

Lemma ensure_after_initialize (detect : VoiceProvider -> detection)
  (m : VoiceManager.t) :
  VoiceManager.ensure_initialized detect (VoiceManager.initialize detect m)
  = VoiceManager.ensure_initialized detect m.
Proof.
  unfold VoiceManager.ensure_initialized, VoiceManager.initialize.
  destruct (VoiceManager.initialized m) eqn:Hi; cbn [negb].
  - now rewrite Hi.
  - reflexivity.
Qed.

(** X25. Initializing a manager explicitly before the first [speak] or
    [getVoices] gives the same outcome and the same manager as leaving the
    initialization to that call. *)
Theorem lazy_initialization_is_explicit (detect : VoiceProvider -> detection)
  (h : host) (m : VoiceManager.t) (text : jsstring)
  (options : option VoiceOptions) :
  VoiceManager.speak detect h (VoiceManager.initialize detect m) text options
  = VoiceManager.speak detect h m text options
  /\ VoiceManager.getVoices detect h (VoiceManager.initialize detect m)
     = VoiceManager.getVoices detect h m.
Proof.
  unfold VoiceManager.speak, VoiceManager.getVoices.
  now rewrite ensure_after_initialize.
Qed.

(** ** Worked examples *)

(** The example of the design document. *)
Example clean_spec_example :
  sanitizeText (str "**bold** and *italic* and `code` and # Heading and [text](url)")
  = str "bold and italic and code and Heading and text".
Proof. vm_compute. reflexivity. Qed.

Example clean_mixed_example :
  sanitizeText (str "  <b>x</b> [a](b)[c] (d) ####### y ")
  = str "bx/b a[c] (d) #y".
Proof. vm_compute. reflexivity. Qed.

Example escape_quotes_example :
  replace WindowsVoiceProvider.re_dquote (lit (dq ++ dq)) (str "say " ++ dq ++ str "hi" ++ dq)
  = str "say " ++ dq ++ dq ++ str "hi" ++ dq ++ dq.
Proof. vm_compute. reflexivity. Qed.

Example windows_host_active :
  let m := VoiceManager.initialize (host_detect windows_host)
             (VoiceManager.new (Some (str "sk-test"))) in
  VoiceManager.getActiveProvider m = Some (str "Windows")
  /\ List.map name (VoiceManager.getProviders m)
     = [str "Windows"; str "Android"; str "ElevenLabs"].
Proof. split; vm_compute; reflexivity. Qed.

Example windows_host_voices :
  WindowsVoiceProvider.getVoices windows_host windows
  = Resolve [
      {| id := str "Microsoft David"; vname := str "Microsoft David";
         language := str "en-US"; gender := Some (str "Male");
         quality := Some standard |};
      {| id := str "Microsoft Zira"; vname := str "Microsoft Zira";
         language := str "en-US"; gender := Some (str "Female");
         quality := Some standard |} ].
Proof. vm_compute. reflexivity. Qed.

(** A line with a single bar has no third field. *)
Example parse_voice_without_gender :
  WindowsVoiceProvider.parse_voice windows_host (str "David|en-US")
  = Crash (str "TypeError").
Proof. vm_compute. reflexivity. Qed.

Example android_clamps_example :
  AndroidVoiceProvider.speak_call android (str "x") (with_rate_pitch 1000 (1 # 100))
  = Resolve {| command := str "termux-tts-speak";
               args := [ Str (str "-r"); NumToFixed 2 2;
                         Str (str "-p"); NumToFixed 2 (1 # 10);
                         Str (str "x") ] |}.
Proof. vm_compute. reflexivity. Qed.
